(** * Lumina Studio: script parser, text layout, timeline driver and
      frame painter of [src/app/page.tsx], embedded in Rocq.

    Conventions of the embedding.
    - A JavaScript string is a [string] of code units; only code units
      below 256 are modelled (an [ascii] is read as a Latin-1 code unit).
    - Frame counters are integers far below 2^53, where JavaScript numbers
      are exact: they are modelled in [Z].
    - Every other number (opacity, coordinates, widths) is modelled in [Q],
      that is with exact arithmetic in place of IEEE doubles.
    - [Math.sin], [Math.cos] and [context.measureText] are parameters of
      the sections that use them. *)

From Stdlib Require Import ZArith QArith Qround Lia List Bool Ascii String DecimalString.
Import ListNotations.

Local Open Scope string_scope.
Local Open Scope list_scope.

(* ================================================================== *)
(** ** JavaScript string primitives used by the page *)
(* ================================================================== *)

Module Js.

(** [s.length === 0] *)
Definition isEmpty (s : string) : bool := (String.length s =? 0)%nat.

(** [s.split(sep)] for a separator of one code unit.  The result is never
    the empty array: the empty string splits into one empty segment. *)
Fixpoint split (sep : ascii) (s : string) : list string :=
  match s with
  | EmptyString => [EmptyString]
  | String c rest =>
      if Ascii.eqb c sep then EmptyString :: split sep rest
      else match split sep rest with
           | [] => [String c EmptyString]
           | w :: ws => String c w :: ws
           end
  end.

(** [xs.join(sep)] *)
Definition join (sep : string) (xs : list string) : string :=
  String.concat sep xs.

(** [s.includes(c)] for one code unit. *)
Fixpoint includes (c : ascii) (s : string) : bool :=
  match s with
  | EmptyString => false
  | String d rest => Ascii.eqb d c || includes c rest
  end.

(** White space and line terminators of ECMAScript that fit in one
    Latin-1 code unit: TAB, LF, VT, FF, CR, SP and NBSP. *)
Definition isWhiteSpace (c : ascii) : bool :=
  match N_of_ascii c with
  | 9%N | 10%N | 11%N | 12%N | 13%N | 32%N | 160%N => true
  | _ => false
  end.

Fixpoint trimStart (s : string) : string :=
  match s with
  | EmptyString => EmptyString
  | String c rest => if isWhiteSpace c then trimStart rest else s
  end.

Fixpoint trimEnd (s : string) : string :=
  match s with
  | EmptyString => EmptyString
  | String c rest =>
      match trimEnd rest with
      | EmptyString => if isWhiteSpace c then EmptyString else String c EmptyString
      | kept => String c kept
      end
  end.

(** [s.trim()] *)
Definition trim (s : string) : string := trimEnd (trimStart s).

(** Truthiness of a string, as used by [filter(Boolean)] and [if (s)]. *)
Definition truthy (s : string) : bool := negb (isEmpty s).

(** The part of [s] before the first occurrence of [sep] (all of [s] when
    there is none), and the part after it. *)
Fixpoint before (sep : ascii) (s : string) : string :=
  match s with
  | EmptyString => EmptyString
  | String c rest => if Ascii.eqb c sep then EmptyString else String c (before sep rest)
  end.

Fixpoint after (sep : ascii) (s : string) : string :=
  match s with
  | EmptyString => EmptyString
  | String c rest => if Ascii.eqb c sep then rest else after sep rest
  end.

End Js.

(* ================================================================== *)
(** ** Script parser: the [scenes] memo (page.tsx, lines 63-72) *)
(* ================================================================== *)

Record Scene : Type := mkScene {
  title : string;
  body : option string   (* [body?: string]; [None] is [undefined] *)
}.

Definition LF : ascii := "010"%char.
Definition BAR : ascii := "|"%char.
Definition SPACE : ascii := " "%char.

(** The callback of the second [map]:
    [const [title, body] = line.split("|").map((segment) => segment.trim())].
    The first branch is unreachable, [Js.split] never returns [[]]. *)
Definition parseLine (line : string) : Scene :=
  match map Js.trim (Js.split BAR line) with
  | [] => mkScene EmptyString None
  | [t] => mkScene t None
  | t :: b :: _ => mkScene t (Some b)
  end.

(** [script.split("\n").map(trim).filter(Boolean)] *)
Definition scriptLines (script : string) : list string :=
  filter Js.truthy (map Js.trim (Js.split LF script)).

Definition scenes (script : string) : list Scene :=
  map parseLine (scriptLines script).

(* ================================================================== *)
(** ** Text layout: the line-breaking loop of [wrapText] (lines 601-617) *)
(* ================================================================== *)

Section WordWrap.

(** [context.measureText(s).width] under the font in force. *)
Variable measure : string -> Q.
Variable maxWidth : Q.

(** [measureText(testLine).width > maxWidth] *)
Definition tooWide (testLine : string) : bool :=
  negb (Qle_bool (measure testLine) maxWidth).

(** One iteration of [for (const word of words)], on the pair
    [(lines, currentLine)]. *)
Definition wrapStep (st : list string * string) (word : string)
  : list string * string :=
  let '(lines, currentLine) := st in
  let testLine :=
    if Js.isEmpty currentLine then word
    else (currentLine ++ " " ++ word)%string in
  if tooWide testLine && negb (Js.isEmpty currentLine)
  then (lines ++ [currentLine], word)
  else (lines, testLine).

Definition wrapLoop (words : list string) (st : list string * string)
  : list string * string :=
  fold_left wrapStep words st.

(** The array [lines] when the drawing part of [wrapText] starts. *)
Definition wrapLines (text : string) : list string :=
  let '(lines, currentLine) := wrapLoop (Js.split SPACE text) ([], EmptyString) in
  if negb (Js.isEmpty currentLine) then lines ++ [currentLine] else lines.

(** A line is settled when wrapping it alone rebuilds it without
    committing anything before the end of the loop. *)
Definition settled (cur : string) : Prop :=
  cur <> EmptyString /\
  wrapLoop (Js.split SPACE cur) ([], EmptyString) = ([], cur).

End WordWrap.

(* ================================================================== *)
(** ** Numbers and constants *)
(* ================================================================== *)

Definition CANVAS_WIDTH : Z := 1280.
Definition CANVAS_HEIGHT : Z := 720.
Definition FPS : Z := 30.

Definition MIME_PREFERENCE : list string :=
  [ "video/webm;codecs=vp9"; "video/webm;codecs=vp8";
    "video/webm;codecs=h264"; "video/webm" ].

(** [Math.round]: the nearest integer, halves rounded towards +infinity. *)
Definition Math_round (x : Q) : Z := Qfloor (x + (1 # 2)).

(** [Math.floor] *)
Definition Math_floor (x : Q) : Z := Qfloor x.

(** [Math.max] and [Math.min] on the rationals. *)
Definition Qmax (x y : Q) : Q := if Qle_bool x y then y else x.

(** An angle [2 * Math.PI * turns + radians], kept symbolic: the
    trigonometric functions are parameters of the painter. *)
Record Angle : Type := mkAngle { turns : Q; radians : Q }.

(* ================================================================== *)
(** ** Timeline arithmetic of [handleGenerate] and [renderFrame] *)
(* ================================================================== *)

Module Timeline.

(** [Math.max(1, Math.round(sceneDuration * FPS))] (line 274) *)
Definition framesPerScene (sceneDuration : Q) : Z :=
  Z.max 1 (Math_round (sceneDuration * inject_Z FPS)).

(** [framesPerScene * scenes.length] (line 275) *)
Definition totalFrames (sceneDuration : Q) (sceneCount : nat) : Z :=
  (framesPerScene sceneDuration * Z.of_nat sceneCount)%Z.

(** [currentFrame / totalFrames] (line 283) *)
Definition overallProgress (currentFrame total : Z) : Q :=
  inject_Z currentFrame / inject_Z total.

(** [Math.min(scenes.length - 1, Math.floor(currentFrame / framesPerScene))] *)
Definition sceneIndex (sceneCount : nat) (perScene currentFrame : Z) : Z :=
  Z.min (Z.of_nat sceneCount - 1)%Z
        (Math_floor (inject_Z currentFrame / inject_Z perScene)).

(** [currentFrame % framesPerScene]: the remainder has the sign of the
    dividend, as [Z.rem]. *)
Definition frameWithinScene (perScene currentFrame : Z) : Z :=
  Z.rem currentFrame perScene.

(** [Math.max(6, Math.floor(framesPerScene / 6))] (line 292) *)
Definition fadeSpan (perScene : Z) : Z :=
  Z.max 6 (Math_floor (inject_Z perScene / 6)).

(** The three branches of lines 294-299. *)
Inductive Phase : Type := FadeIn | FadeOut | Hold.

Definition phase (perScene within : Z) : Phase :=
  if (within <? fadeSpan perScene)%Z then FadeIn
  else if (within >? perScene - fadeSpan perScene)%Z then FadeOut
  else Hold.

(** Lines 294-299, as a function of [frameWithinScene]. *)
Definition opacityWithin (perScene within : Z) : Q :=
  if (within <? fadeSpan perScene)%Z then
    inject_Z within / inject_Z (fadeSpan perScene)
  else if (within >? perScene - fadeSpan perScene)%Z then
    Qmax 0 (inject_Z (perScene - within) / inject_Z (fadeSpan perScene))
  else 1.

(** The opacity computed by the timeline step at [currentFrame]. *)
Definition opacity (perScene currentFrame : Z) : Q :=
  opacityWithin perScene (frameWithinScene perScene currentFrame).

(** The argument of [Math.sin] in line 301. *)
Definition motionAngle (progress : Q) (index : Z) : Angle :=
  mkAngle (progress + inject_Z index * (1 # 10)) 0.

End Timeline.

(* ================================================================== *)
(** ** The 2D drawing context *)
(* ================================================================== *)

Inductive Style : Type :=
| Css (color : string)
| LinearGradient (x0 y0 x1 y1 : Q) (stops : list (Q * string))
| RadialGradient (x0 y0 r0 x1 y1 r1 : Q) (stops : list (Q * string)).

(** [gradient.addColorStop(offset, color)] *)
Definition addColorStop (offset : Q) (color : string) (g : Style) : Style :=
  match g with
  | Css c => Css c
  | LinearGradient x0 y0 x1 y1 stops =>
      LinearGradient x0 y0 x1 y1 (stops ++ [(offset, color)])
  | RadialGradient x0 y0 r0 x1 y1 r1 stops =>
      RadialGradient x0 y0 r0 x1 y1 r1 (stops ++ [(offset, color)])
  end.

(** The part of the context that [save] pushes and [restore] pops, cut
    down to the attributes the page assigns. *)
Record PaintState : Type := mkPaintState {
  globalAlpha : Q;
  fillStyle : Style;
  font : string;
  textAlign : string;
  textBaseline : string
}.

Definition defaultPaintState : PaintState :=
  mkPaintState 1 (Css "#000000") "10px sans-serif" "start" "alphabetic".

(** One arc of the current path: [arc(x, y, radius, start, end)]. *)
Record Arc : Type := mkArc {
  arcX : Q; arcY : Q; arcRadius : Q; arcStart : Angle; arcEnd : Angle
}.

(** What reaches the bitmap: each painting call together with the paint
    state it was issued under. *)
Inductive Paint : Type :=
| FillRect (x y w h : Q) (under : PaintState)
| FillPath (path : list Arc) (under : PaintState)
| FillText (text : string) (x y : Q) (under : PaintState).

Record Context : Type := mkContext {
  paintState : PaintState;
  saved : list PaintState;      (* the stack of [save] *)
  currentPath : list Arc;
  painted : list Paint          (* in painting order *)
}.

(** The paint state a painting call was issued under. *)
Definition stateOf (op : Paint) : PaintState :=
  match op with
  | FillRect _ _ _ _ st => st
  | FillPath _ st => st
  | FillText _ _ _ st => st
  end.

(** Assigning [canvas.width] or [canvas.height] clears the bitmap and
    resets the context. *)
Definition freshContext : Context :=
  mkContext defaultPaintState [] [] [].

(** Drawing code threads the context: a state monad. *)
Definition Draw (A : Type) : Type := Context -> A * Context.

Definition ret {A : Type} (a : A) : Draw A := fun ctx => (a, ctx).

Definition bind {A B : Type} (m : Draw A) (k : A -> Draw B) : Draw B :=
  fun ctx => let '(a, ctx') := m ctx in k a ctx'.

Declare Scope draw_scope.
Delimit Scope draw_scope with draw.
Notation "x <- m ;; k" := (bind m (fun x => k))
  (at level 61, m at next level, right associativity) : draw_scope.
Notation "m ;; k" := (bind m (fun _ => k))
  (at level 61, right associativity) : draw_scope.

Definition exec {A : Type} (m : Draw A) (ctx : Context) : Context := snd (m ctx).

Definition getState : Draw PaintState := fun ctx => (paintState ctx, ctx).

Definition setState (f : PaintState -> PaintState) : Draw unit :=
  fun ctx => (tt, mkContext (f (paintState ctx)) (saved ctx) (currentPath ctx) (painted ctx)).

Definition emit (p : PaintState -> Paint) : Draw unit :=
  fun ctx => (tt, mkContext (paintState ctx) (saved ctx) (currentPath ctx)
                            (painted ctx ++ [p (paintState ctx)])).

Module Ctx.

Definition save : Draw unit :=
  fun ctx => (tt, mkContext (paintState ctx) (paintState ctx :: saved ctx)
                            (currentPath ctx) (painted ctx)).

(** [restore] does nothing when the stack is empty. *)
Definition restore : Draw unit :=
  fun ctx =>
    match saved ctx with
    | [] => (tt, ctx)
    | s :: rest => (tt, mkContext s rest (currentPath ctx) (painted ctx))
    end.

Definition set_globalAlpha (a : Q) : Draw unit :=
  setState (fun s => mkPaintState a (fillStyle s) (font s) (textAlign s) (textBaseline s)).

Definition set_fillStyle (f : Style) : Draw unit :=
  setState (fun s => mkPaintState (globalAlpha s) f (font s) (textAlign s) (textBaseline s)).

Definition set_font (f : string) : Draw unit :=
  setState (fun s => mkPaintState (globalAlpha s) (fillStyle s) f (textAlign s) (textBaseline s)).

Definition set_textAlign (a : string) : Draw unit :=
  setState (fun s => mkPaintState (globalAlpha s) (fillStyle s) (font s) a (textBaseline s)).

Definition set_textBaseline (b : string) : Draw unit :=
  setState (fun s => mkPaintState (globalAlpha s) (fillStyle s) (font s) (textAlign s) b).

Definition fillRect (x y w h : Q) : Draw unit := emit (FillRect x y w h).

Definition fillText (text : string) (x y : Q) : Draw unit := emit (FillText text x y).

Definition beginPath : Draw unit :=
  fun ctx => (tt, mkContext (paintState ctx) (saved ctx) [] (painted ctx)).

Definition arc (x y r : Q) (a0 a1 : Angle) : Draw unit :=
  fun ctx => (tt, mkContext (paintState ctx) (saved ctx)
                            (currentPath ctx ++ [mkArc x y r a0 a1]) (painted ctx)).

Definition fill : Draw unit :=
  fun ctx => (tt, mkContext (paintState ctx) (saved ctx) (currentPath ctx)
                            (painted ctx ++ [FillPath (currentPath ctx) (paintState ctx)])).

End Ctx.

(** [for (const x of xs) body(x)] over a drawing body. *)
Fixpoint forEach {A : Type} (xs : list A) (body : A -> Draw unit) : Draw unit :=
  match xs with
  | [] => ret tt
  | x :: rest => (body x ;; forEach rest body)%draw
  end.

(* ================================================================== *)
(** ** Number formatting and parsing used by the painter *)
(* ================================================================== *)

(** A template literal interpolating an integer. *)
Definition showZ (z : Z) : string := NilZero.string_of_int (Z.to_int z).

Definition digitValue (c : ascii) : option Z :=
  let n := N_of_ascii c in
  if (48 <=? n)%N && (n <=? 57)%N then Some (Z.of_N n - 48)%Z else None.

(** The longest prefix of decimal digits; [None] when there is none. *)
Fixpoint parseDigits (s : string) (acc : option Z) : option Z :=
  match s with
  | EmptyString => acc
  | String c rest =>
      match digitValue c with
      | Some d =>
          parseDigits rest
            (Some (10 * match acc with Some a => a | None => 0 end + d)%Z)
      | None => acc
      end
  end.

(** [Number.parseInt(s, 10)]; [None] is [NaN]. *)
Definition parseInt10 (s : string) : option Z :=
  match Js.trimStart s with
  | String "-"%char rest => option_map Z.opp (parseDigits rest None)
  | String "+"%char rest => parseDigits rest None
  | t => parseDigits t None
  end.

(** [x % 1] on a number: the remainder keeps the sign of [x]. *)
Definition remOne (x : Q) : Q :=
  if Qle_bool 0 x then x - inject_Z (Qfloor x) else x - inject_Z (Qceiling x).

(* ================================================================== *)
(** ** Component state *)
(* ================================================================== *)

(** The style inputs the callbacks close over. *)
Record StyleConfig : Type := mkStyle {
  primaryColor : string;
  accentColor : string;
  backgroundStart : string;
  backgroundEnd : string;
  sceneDuration : Q
}.

(** What the browser offers to one call of [handleGenerate]. *)
Record Host : Type := mkHost {
  isClient : bool;                   (* [typeof window !== "undefined"] *)
  hasMediaRecorder : bool;           (* ["MediaRecorder" in window] *)
  canvasMounted : bool;              (* [canvasRef.current] is not null *)
  contextAvailable : bool;           (* [canvas.getContext("2d")] is not null *)
  isTypeSupported : string -> bool   (* [MediaRecorder.isTypeSupported] *)
}.

Inductive RecorderState : Type := Inactive | Recording.

Record MediaRecorder : Type := mkRecorder {
  mimeType : string;
  videoBitsPerSecond : Z;
  recorderState : RecorderState;
  collecting : bool                  (* [ondataavailable] is attached *)
}.

(** Calls into the browser that the claims speak about, in call order. *)
Inductive HostCall : Type :=
| CancelAnimationFrame (handle : positive)
| RequestAnimationFrame (handle : positive)
| CaptureStream (fps : Z)
| NewMediaRecorder (mime : string) (bitrate : Z)
| RecorderStart
| RecorderStop.

(** The refs and React state of [Home], the 2D context of the canvas, and
    the log of browser calls. *)
Record Page : Type := mkPage {
  rafRef : option positive;
  recorderRef : option MediaRecorder;
  renderError : option string;
  isRendering : bool;
  canvasContext : Context;
  nextHandle : positive;             (* the next [requestAnimationFrame] id *)
  calls : list HostCall
}.

Inductive BlobPart : Type := blobPart (size : N).

(** The variables one call of [handleGenerate] closes over.  The local
    [recorder] is the object held by [recorderRef] for as long as the
    render is not torn down, so it is not duplicated here. *)
Record Session : Type := mkSession {
  sessionScenes : list Scene;
  chunks : list BlobPart;
  framesPerScene : Z;
  totalFrames : Z;
  currentFrame : Z
}.

Definition CaptureUnsupported : string := "MediaRecorder is not supported in this browser.".
Definition SurfaceUnavailable : string := "Canvas unavailable.".
Definition NoScenes : string := "Add at least one scene to generate a video.".
Definition ContextUnavailable : string := "Could not access the drawing context.".
Definition NoSupportedCodec : string := "No supported video codecs found for this browser.".

Definition setRenderError (e : option string) (p : Page) : Page :=
  mkPage (rafRef p) (recorderRef p) e (isRendering p) (canvasContext p) (nextHandle p) (calls p).

Definition setIsRendering (b : bool) (p : Page) : Page :=
  mkPage (rafRef p) (recorderRef p) (renderError p) b (canvasContext p) (nextHandle p) (calls p).

Definition setRafRef (r : option positive) (p : Page) : Page :=
  mkPage r (recorderRef p) (renderError p) (isRendering p) (canvasContext p) (nextHandle p) (calls p).

Definition setRecorderRef (r : option MediaRecorder) (p : Page) : Page :=
  mkPage (rafRef p) r (renderError p) (isRendering p) (canvasContext p) (nextHandle p) (calls p).

Definition setContext (c : Context) (p : Page) : Page :=
  mkPage (rafRef p) (recorderRef p) (renderError p) (isRendering p) c (nextHandle p) (calls p).

Definition call (c : HostCall) (p : Page) : Page :=
  mkPage (rafRef p) (recorderRef p) (renderError p) (isRendering p) (canvasContext p)
         (nextHandle p) (calls p ++ [c]).

(** [requestAnimationFrame(renderFrame)], stored in [rafRef.current]. *)
Definition requestAnimationFrame (p : Page) : Page :=
  let h := nextHandle p in
  mkPage (Some h) (recorderRef p) (renderError p) (isRendering p) (canvasContext p)
         (Pos.succ h) (calls p ++ [RequestAnimationFrame h]).

(** [if (recorder.state !== "inactive") recorder.stop()] *)
Definition stopRecorder (detach : bool) (p : Page) : Page :=
  match recorderRef p with
  | Some r =>
      match recorderState r with
      | Inactive => p
      | Recording =>
          call RecorderStop
            (setRecorderRef
               (Some (mkRecorder (mimeType r) (videoBitsPerSecond r) Inactive
                                 (if detach then false else collecting r))) p)
      end
  | None => p
  end.

(** [teardownRecording] (lines 119-129) *)
Definition teardownRecording (p : Page) : Page :=
  let p :=
    match rafRef p with
    | Some h => setRafRef None (call (CancelAnimationFrame h) p)
    | None => p
    end in
  let p := stopRecorder true p in
  setRecorderRef None p.

(** [recorder.ondataavailable]: a chunk is kept when its size is not 0. *)
Definition ondataavailable (data : BlobPart) (s : Session) : Session :=
  match data with
  | blobPart 0%N => s
  | _ => mkSession (sessionScenes s) (chunks s ++ [data]) (framesPerScene s)
                   (totalFrames s) (currentFrame s)
  end.

(* ================================================================== *)
(** ** The painter and the timeline driver *)
(* ================================================================== *)

Section Painter.

Variables Math_sin Math_cos : Angle -> Q.

(** [context.measureText(text).width], which depends on the font in
    force; the [font] getter is taken to return the string assigned. *)
Variable measureText : string -> string -> Q.

Variable cfg : StyleConfig.

Let W : Q := inject_Z CANVAS_WIDTH.
Let H : Q := inject_Z CANVAS_HEIGHT.

(** The drawing loop of [wrapText] (lines 624-627) *)
Fixpoint drawLines (lines : list string) (centerX drawY lineHeight : Q) : Draw unit :=
  match lines with
  | [] => ret tt
  | line :: rest =>
      (Ctx.fillText line centerX drawY ;;
       drawLines rest centerX (drawY + lineHeight) lineHeight)%draw
  end.

(** [wrapText] (lines 594-628) *)
Definition wrapText (text : string) (centerX centerY maxWidth : Q) : Draw unit :=
  (st <- getState ;;
   let lines := wrapLines (measureText (font st)) maxWidth text in
   let fontSize :=
     match parseInt10 (font st) with
     | Some 0%Z | None => 24%Z
     | Some n => n
     end in
   let lineHeight := inject_Z fontSize * (126 # 100) in
   let totalHeight := lineHeight * inject_Z (Z.of_nat (List.length lines)) in
   let drawY := centerY - totalHeight / 2 + lineHeight / 2 in
   drawLines lines centerX drawY lineHeight)%draw.

(** The blob loop of [drawBackground] (lines 149-170): the position,
    the radius and the radial gradient of blob [index]. *)
Definition blobProgress (progress : Q) (index : Z) : Q :=
  remOne (progress * inject_Z (index + 1) * (7 # 10) + inject_Z index * (13 # 100)).

Definition blobX (progress : Q) (index : Z) : Q :=
  W * ((15 # 100) + (7 # 10) * blobProgress progress index).

Definition blobY (progress : Q) (index : Z) : Q :=
  H * ((25 # 100) + (5 # 10) * (1 - blobProgress progress index)).

Definition blobRadius (progress : Q) (index : Z) : Q :=
  180 + Math_sin (mkAngle progress (inject_Z index)) * 60.

Definition gradientBlob (progress : Q) (index : Z) : Style :=
  let direction : Q := if (Z.rem index 2 =? 0)%Z then 1 else -1 in
  let g :=
    RadialGradient (blobX progress index + direction * 40)
                   (blobY progress index + direction * 40) 0
                   (blobX progress index) (blobY progress index)
                   (blobRadius progress index) [] in
  let baseColor :=
    if (Z.rem index 2 =? 0)%Z then accentColor cfg else primaryColor cfg in
  let g := addColorStop 0 (baseColor ++ "30")%string g in
  addColorStop 1 (baseColor ++ "00")%string g.

(** One iteration of the loop. *)
Definition drawBlob (progress : Q) (index : Z) : Draw unit :=
  (Ctx.set_fillStyle (gradientBlob progress index) ;;
   Ctx.beginPath ;;
   Ctx.arc (blobX progress index) (blobY progress index) (blobRadius progress index)
           (mkAngle 0 0) (mkAngle 1 0) ;;
   Ctx.fill)%draw.

(** [drawBackground] (lines 131-173) *)
Definition drawBackground (progress : Q) : Draw unit :=
  let angle := mkAngle progress 0 in
  let offsetX := Math_cos angle * 120 in
  let offsetY := Math_sin angle * 120 in
  let gradient := LinearGradient offsetX offsetY (W - offsetX) (H - offsetY) [] in
  let gradient := addColorStop 0 (backgroundStart cfg) gradient in
  let gradient := addColorStop 1 (backgroundEnd cfg) gradient in
  (Ctx.set_fillStyle gradient ;;
   Ctx.fillRect 0 0 W H ;;
   forEach [0; 1; 2; 3; 4]%Z (drawBlob progress))%draw.

(** [drawScene] (lines 175-207) *)
Definition drawScene (scene : Scene) (opacity motionOffset : Q) : Draw unit :=
  (Ctx.save ;;
   Ctx.set_globalAlpha opacity ;;
   Ctx.set_fillStyle (Css (primaryColor cfg)) ;;
   Ctx.set_textAlign "center" ;;
   Ctx.set_textBaseline "middle" ;;
   Ctx.set_font "700 72px 'Inter', 'Segoe UI', sans-serif" ;;
   wrapText (title scene) (W / 2) (H / 2 - 80 + motionOffset) 920 ;;
   match body scene with
   | Some b =>
       if Js.truthy b then
         Ctx.set_fillStyle (Css (accentColor cfg)) ;;
         Ctx.set_font "500 42px 'Inter', 'Segoe UI', sans-serif" ;;
         wrapText b (W / 2) (H / 2 + 60 + motionOffset) 900
       else ret tt
   | None => ret tt
   end ;;
   Ctx.restore)%draw.

Let timelineWidth : Q := W * (6 # 10).
Let timelineHeight : Q := 12.
Let timelineX : Q := (W - timelineWidth) / 2.
Let timelineY : Q := H - 80.

(** The progress-bar track (lines 309-313) *)
Definition drawTrack : Draw unit :=
  (Ctx.save ;;
   Ctx.set_globalAlpha (35 # 100) ;;
   Ctx.set_fillStyle (Css "#0f172a") ;;
   Ctx.fillRect timelineX timelineY timelineWidth timelineHeight ;;
   Ctx.restore)%draw.

(** The progress-bar fill (lines 315-324) *)
Definition drawFill (current total : Z) : Draw unit :=
  (Ctx.save ;;
   Ctx.set_globalAlpha (85 # 100) ;;
   Ctx.set_fillStyle (Css (accentColor cfg)) ;;
   Ctx.fillRect timelineX timelineY
                (timelineWidth * (inject_Z current / inject_Z total)) timelineHeight ;;
   Ctx.restore)%draw.

(** The caption (lines 326-336) *)
Definition drawCaption (index : Z) (scene : Scene) : Draw unit :=
  (Ctx.save ;;
   Ctx.set_globalAlpha (6 # 10) ;;
   Ctx.set_fillStyle (Css (primaryColor cfg)) ;;
   Ctx.set_font "500 28px 'Inter', 'Segoe UI', sans-serif" ;;
   Ctx.set_textAlign "center" ;;
   Ctx.fillText ("Scene " ++ showZ (index + 1) ++ " - " ++ title scene)%string
                (W / 2) (H - 110) ;;
   Ctx.restore)%draw.

(** [scenes[sceneIndex]].  The index computed by the timeline step is
    always in range (see [sceneIndex_in_range]); the default stands for
    the [undefined] of an index out of range. *)
Definition sceneAt (scs : list Scene) (index : Z) : Scene :=
  nth (Z.to_nat index) scs (mkScene EmptyString None).

(** Everything [renderFrame] paints for one value of [currentFrame]
    (lines 283-336). *)
Definition paintFrame (s : Session) : Draw unit :=
  let overallProgress := Timeline.overallProgress (currentFrame s) (totalFrames s) in
  let sceneIndex :=
    Timeline.sceneIndex (List.length (sessionScenes s)) (framesPerScene s) (currentFrame s) in
  let scene := sceneAt (sessionScenes s) sceneIndex in
  let opacity := Timeline.opacity (framesPerScene s) (currentFrame s) in
  let motionOffset := Math_sin (Timeline.motionAngle overallProgress sceneIndex) * 18 in
  (drawBackground overallProgress ;;
   drawScene scene opacity motionOffset ;;
   drawTrack ;;
   drawFill (currentFrame s) (totalFrames s) ;;
   drawCaption sceneIndex scene)%draw.

(** [renderFrame] (lines 278-347).  The guard [if (!context) return] is
    dead: [handleGenerate] has returned before when the context is null. *)
Definition renderFrame (ps : Page * Session) : Page * Session :=
  let '(p, s) := ps in
  let p := setContext (exec (paintFrame s) (canvasContext p)) p in
  let s := mkSession (sessionScenes s) (chunks s) (framesPerScene s)
                     (totalFrames s) (currentFrame s + 1)%Z in
  if (currentFrame s <=? totalFrames s)%Z
  then (requestAnimationFrame p, s)
  else (stopRecorder false (setRafRef None p), s).

(** The browser runs the callback registered in [rafRef], if any. *)
Definition animationFrame (ps : Page * Session) : Page * Session :=
  match rafRef (fst ps) with
  | Some _ => renderFrame ps
  | None => ps
  end.

(** [n] display refreshes. *)
Fixpoint refreshes (n : nat) (ps : Page * Session) : Page * Session :=
  match n with
  | O => ps
  | S k => refreshes k (animationFrame ps)
  end.

(** [handleGenerate] (lines 209-349) up to and including
    [recorder.start()].  The session is [None] when the function
    returns before it creates the recorder. *)
Definition startRender (host : Host) (script : string) (p : Page)
  : Page * option Session :=
  if negb (isClient host) then (p, None)
  else if negb (hasMediaRecorder host) then
    (setRenderError (Some CaptureUnsupported) p, None)
  else if negb (canvasMounted host) then
    (setRenderError (Some SurfaceUnavailable) p, None)
  else if (List.length (scenes script) =? 0)%nat then
    (setRenderError (Some NoScenes) p, None)
  else
    let p := teardownRecording p in
    let p := setRenderError None p in
    let p := setIsRendering true p in
    if negb (contextAvailable host) then
      (setIsRendering false (setRenderError (Some ContextUnavailable) p), None)
    else
      let p := setContext freshContext p in
      match find (isTypeSupported host) MIME_PREFERENCE with
      | None =>
          (setIsRendering false (setRenderError (Some NoSupportedCodec) p), None)
      | Some mime =>
          let p := call (CaptureStream FPS) p in
          let p := call (NewMediaRecorder mime 6000000) p in
          let p := setRecorderRef (Some (mkRecorder mime 6000000 Inactive true)) p in
          let perScene := Timeline.framesPerScene (sceneDuration cfg) in
          let total := (perScene * Z.of_nat (List.length (scenes script)))%Z in
          let s := mkSession (scenes script) [] perScene total 0 in
          let p := call RecorderStart
                     (setRecorderRef (Some (mkRecorder mime 6000000 Recording true)) p) in
          (p, Some s)
      end.

(** [handleGenerate] (lines 209-351): the start of the render followed
    by the first, synchronous call [renderFrame()] of line 350. *)
Definition handleGenerate (host : Host) (script : string) (p : Page)
  : Page * option Session :=
  match startRender host script p with
  | (p, Some s) => let '(p, s) := renderFrame (p, s) in (p, Some s)
  | (p, None) => (p, None)
  end.

(** The states of the render loop that begins at [start], each taken
    when a call of [renderFrame] returns: the call made by
    [handleGenerate], then one call for every callback scheduled. *)
Inductive LoopState (start : Page * Session) : Page * Session -> Prop :=
| loop_first : LoopState start (renderFrame start)
| loop_next (ps : Page * Session) :
    LoopState start ps ->
    rafRef (fst ps) <> None ->
    LoopState start (renderFrame ps).

End Painter.

(** The page once mounted, before any render. *)
Definition mountedPage : Page :=
  mkPage None None None false freshContext 1 [].

(** A browser that offers everything [handleGenerate] asks for. *)
Definition capableHost : Host :=
  mkHost true true true true (fun _ => true).

Definition defaultStyle : StyleConfig :=
  mkStyle "#0f172a" "#38bdf8" "#f1f5f9" "#dbeafe" 4.

(** Stand-ins for the browser's functions where a claim is evaluated on a
    concrete input: a text measure of 30 pixels per code unit, and
    trigonometric functions frozen at the angle 0. *)
Definition sinAtZero : Angle -> Q := fun _ => 0.
Definition cosAtZero : Angle -> Q := fun _ => 1.
Definition fixedPitch : string -> string -> Q :=
  fun _ text => 30 * inject_Z (Z.of_nat (String.length text)).

(** A drawing computation is bracketed when it leaves the whole paint
    state and the stack of saved states as it found them. *)
Definition bracketed (m : Draw unit) : Prop :=
  forall ctx, paintState (exec m ctx) = paintState ctx /\
              saved (exec m ctx) = saved ctx.

(** A drawing computation paints under [alpha] and [fill] when every
    painting call it adds is issued with that opacity and that fill. *)
Definition paintsUnder (alpha : Q) (fills : list Style) (m : Draw unit) : Prop :=
  forall ctx, exists ops,
    painted (exec m ctx) = painted ctx ++ ops /\
    Forall (fun op => globalAlpha (stateOf op) = alpha /\
                      In (fillStyle (stateOf op)) fills) ops.

(** The recorder held by [recorderRef] has been stopped. *)
Definition recorderStopped (p : Page) : Prop :=
  exists r, recorderRef p = Some r /\ recorderState r = Inactive.

(** The invariant of the render loop. *)
Definition loopInvariant (total : Z) (ps : Page * Session) : Prop :=
  totalFrames (snd ps) = total /\
  (1 <= currentFrame (snd ps) <= total + 1)%Z /\
  ((currentFrame (snd ps) <= total)%Z /\
     rafRef (fst ps) <> None /\
     (exists r, recorderRef (fst ps) = Some r /\ recorderState r = Recording)
   \/
   currentFrame (snd ps) = (total + 1)%Z /\
     rafRef (fst ps) = None /\
     recorderStopped (fst ps) /\
     In RecorderStop (calls (fst ps))).

(* ================================================================== *)
(** ** Further parts of the page *)
(* ================================================================== *)

(** A string of white space only (the empty string included). *)
Fixpoint isBlank (s : string) : bool :=
  match s with
  | EmptyString => true
  | String c rest => Js.isWhiteSpace c && isBlank rest
  end.

(** The first code unit of a string is a space. *)
Definition startsWithSpace (s : string) : bool :=
  match s with
  | String c _ => Ascii.eqb c SPACE
  | EmptyString => false
  end.

(** [s.includes(needle)] for a string needle. *)
Fixpoint includesString (needle s : string) : bool :=
  if String.prefix needle s then true
  else match s with
       | EmptyString => false
       | String _ rest => includesString needle rest
       end.

(** The [codecLabel] memo (lines 74-95). *)
Definition codecLabel (host : Host) : string :=
  if negb (isClient host) then "Detecting..."
  else if negb (hasMediaRecorder host) then "Unavailable"
  else match find (isTypeSupported host) MIME_PREFERENCE with
       | None => "Unavailable"
       | Some candidate =>
           if includesString "vp9" candidate then "WebM / VP9"
           else if includesString "vp8" candidate then "WebM / VP8"
           else if includesString "h264" candidate then "WebM / H264"
           else "WebM"
       end.

(** [resetCanvas] (lines 97-113): nothing happens without a canvas or a
    context; otherwise the canvas is resized, which clears it and resets
    the context, and the gradient is painted over all of it. *)
Definition resetCanvas (cfg : StyleConfig) (host : Host) (p : Page) : Page :=
  if negb (canvasMounted host) then p
  else if negb (contextAvailable host) then p
  else
    let gradient :=
      LinearGradient 0 0 (inject_Z CANVAS_WIDTH) (inject_Z CANVAS_HEIGHT) [] in
    let gradient := addColorStop 0 (backgroundStart cfg) gradient in
    let gradient := addColorStop 1 (backgroundEnd cfg) gradient in
    setContext
      (exec (Ctx.set_fillStyle gradient ;;
             Ctx.fillRect 0 0 (inject_Z CANVAS_WIDTH) (inject_Z CANVAS_HEIGHT))%draw
            freshContext) p.

(** [Number.parseInt(context.font, 10) || 24] and the line height of
    [wrapText] (lines 619-620). *)
Definition fontSizeOf (fontString : string) : Z :=
  match parseInt10 fontString with
  | Some 0%Z | None => 24%Z
  | Some n => n
  end.

Definition lineHeightOf (fontString : string) : Q :=
  inject_Z (fontSizeOf fontString) * (126 # 100).

(** The chunk buffer after the recorder has delivered [datas], in order. *)
Definition collect (datas : list BlobPart) (s : Session) : Session :=
  fold_left (fun acc data => ondataavailable data acc) datas s.

Definition nonEmptyPart (data : BlobPart) : bool :=
  match data with
  | blobPart 0%N => false
  | _ => true
  end.

(** [new Blob(chunks, { type: mimeType })] *)
Record Blob : Type := mkBlob {
  blobParts : list BlobPart;
  blobType : string
}.

(** The [videoUrl] state and the object URLs that still resolve. *)
Record Output : Type := mkOutput {
  videoUrl : option positive;
  objectUrls : list (positive * Blob);
  nextUrl : positive              (* the next URL [createObjectURL] hands out *)
}.

Definition createObjectURL (blob : Blob) (o : Output) : positive * Output :=
  (nextUrl o,
   mkOutput (videoUrl o) (objectUrls o ++ [(nextUrl o, blob)]) (Pos.succ (nextUrl o))).

(** Revoking a URL that does not resolve does nothing. *)
Definition revokeObjectURL (url : positive) (o : Output) : Output :=
  mkOutput (videoUrl o)
           (filter (fun entry => negb (Pos.eqb (fst entry) url)) (objectUrls o))
           (nextUrl o).

(** What a URL resolves to. *)
Definition resolveUrl (url : positive) (o : Output) : option Blob :=
  option_map snd (find (fun entry => Pos.eqb (fst entry) url) (objectUrls o)).

(** [recorder.onstop] (lines 262-272), followed by the cleanup of the
    effect on [videoUrl] (lines 55-61) that React runs for the value
    replaced. *)
Definition onstop (mime : string) (s : Session) (po : Page * Output)
  : Page * Output :=
  let '(p, o) := po in
  let blob := mkBlob (chunks s) mime in
  let '(url, o) := createObjectURL blob o in
  let prev := videoUrl o in
  let o := match prev with
           | Some old => revokeObjectURL old o
           | None => o
           end in
  let o := mkOutput (Some url) (objectUrls o) (nextUrl o) in
  let o := match prev with
           | Some old => revokeObjectURL old o
           | None => o
           end in
  (setIsRendering false p, o).

(** Every URL that resolves is the current [videoUrl], and the URLs
    handed out so far are below [nextUrl]. *)
Definition singleOutput (o : Output) : Prop :=
  (forall url blob, In (url, blob) (objectUrls o) ->
                    videoUrl o = Some url /\ (url < nextUrl o)%positive) /\
  (forall url, videoUrl o = Some url -> (url < nextUrl o)%positive).

(** A field of a scene as the parser leaves it: trimmed, and free of the
    delimiter and of line breaks. *)
Definition cleanField (f : string) : Prop :=
  Js.trim f = f /\ Js.includes BAR f = false /\ Js.includes LF f = false.

(** A line as the wrap loop leaves it: not empty, not starting with a
    space, and within the maximum width unless it is a single word. *)
Definition wellWrapped (measure : string -> Q) (maxWidth : Q) (line : string) : Prop :=
  line <> EmptyString /\
  startsWithSpace line = false /\
  (Js.includes SPACE line = false \/ measure line <= maxWidth).

(** What [wrapLines] returns for a state of the loop. *)
Definition finishWrap (st : list string * string) : list string :=
  if negb (Js.isEmpty (snd st)) then fst st ++ [snd st] else fst st.

(** The calls of the drawing loop of [wrapText], from the first baseline
    [drawY] on. *)
Fixpoint linePaints (lines : list string) (centerX drawY lineHeight : Q)
         (st : PaintState) : list Paint :=
  match lines with
  | [] => []
  | line :: rest =>
      FillText line centerX drawY st ::
      linePaints rest centerX (drawY + lineHeight) lineHeight st
  end.

(** [n] consecutive [requestAnimationFrame] handles, from [h] on. *)
Fixpoint handlesFrom (h : positive) (n : nat) : list positive :=
  match n with
  | O => []
  | S k => h :: handlesFrom (Pos.succ h) k
  end.

(** The browser calls [teardownRecording] makes for a page. *)
Definition teardownCalls (p : Page) : list HostCall :=
  match rafRef p with
  | Some h => [CancelAnimationFrame h]
  | None => []
  end ++
  match recorderRef p with
  | Some r =>
      match recorderState r with
      | Recording => [RecorderStop]
      | Inactive => []
      end
  | None => []
  end.

(** A call that only winds a render down. *)
Definition windsDown (c : HostCall) : Prop :=
  c = RecorderStop \/ exists h, c = CancelAnimationFrame h.

(** The paint state with another fill style. *)
Definition withFill (f : Style) (st : PaintState) : PaintState :=
  mkPaintState (globalAlpha st) f (font st) (textAlign st) (textBaseline st).

(* ================================================================== *)
(** * Properties *)
(* ================================================================== *)

(** ** Strings *)

Lemma isEmpty_false (s : string) : Js.isEmpty s = false <-> s <> EmptyString.
Proof. destruct s; cbn; split; intros E; congruence. Qed.

Lemma string_app_assoc (a b c : string) :
  ((a ++ b) ++ c)%string = (a ++ (b ++ c))%string.
Proof. induction a as [|x a IH]; cbn; [reflexivity | now rewrite IH]. Qed.

Lemma split_not_nil (sep : ascii) (s : string) : Js.split sep s <> [].
Proof.
  destruct s as [|c s]; cbn; [discriminate|].
  destruct (Ascii.eqb c sep); [discriminate|].
  destruct (Js.split sep s); discriminate.
Qed.

(** Splitting at the first separator. *)
Lemma split_first (sep : ascii) (s : string) :
  Js.split sep s =
  Js.before sep s ::
    (if Js.includes sep s then Js.split sep (Js.after sep s) else []).
Proof.
  induction s as [|c s IH]; cbn; [reflexivity|].
  destruct (Ascii.eqb c sep); cbn; [reflexivity|].
  rewrite IH. reflexivity.
Qed.

Lemma split_without_sep (sep : ascii) (s : string) :
  Js.includes sep s = false -> Js.split sep s = [s].
Proof.
  induction s as [|c s IH]; cbn; [reflexivity|].
  destruct (Ascii.eqb c sep); cbn; [discriminate|].
  intros E. now rewrite (IH E).
Qed.

Lemma before_without_sep (sep : ascii) (s : string) :
  Js.includes sep s = false -> Js.before sep s = s.
Proof.
  induction s as [|c s IH]; cbn; [reflexivity|].
  destruct (Ascii.eqb c sep); cbn; [discriminate|].
  intros E. now rewrite (IH E).
Qed.

Lemma split_app (sep : ascii) (a b : string) :
  Js.split sep (a ++ String sep b)%string = Js.split sep a ++ Js.split sep b.
Proof.
  induction a as [|c a IH]; cbn.
  - now rewrite Ascii.eqb_refl.
  - destruct (Ascii.eqb c sep); cbn; [now rewrite IH|].
    rewrite IH.
    destruct (Js.split sep a) as [|w ws] eqn:E; [|reflexivity].
    now apply split_not_nil in E.
Qed.

Lemma split_segments_sep_free (sep : ascii) (s : string) :
  Forall (fun w => Js.includes sep w = false) (Js.split sep s).
Proof.
  induction s as [|c s IH]; cbn.
  - constructor; [reflexivity | constructor].
  - destruct (Ascii.eqb c sep) eqn:E.
    + constructor; [reflexivity | exact IH].
    + destruct (Js.split sep s) as [|w ws].
      * constructor; [cbn; now rewrite E | constructor].
      * inversion IH; subst. constructor; [cbn; now rewrite E | assumption].
Qed.

(** [split] then [join] is the identity. *)
Lemma join_split (sep : ascii) (s : string) :
  Js.join (String sep EmptyString) (Js.split sep s) = s.
Proof.
  unfold Js.join.
  induction s as [|c s IH]; cbn; [reflexivity|].
  destruct (Ascii.eqb c sep) eqn:E.
  - apply Ascii.eqb_eq in E. subst c.
    destruct (Js.split sep s) as [|w ws] eqn:Es; [now apply split_not_nil in Es|].
    cbn in *. now rewrite IH.
  - destruct (Js.split sep s) as [|w ws] eqn:Es; [now apply split_not_nil in Es|].
    destruct ws; cbn in *; now rewrite IH.
Qed.


(** ** Script parser *)

Lemma parseLine_with_bar (line : string) :
  Js.includes BAR line = true ->
  parseLine line =
  mkScene (Js.trim (Js.before BAR line))
          (Some (Js.trim (Js.before BAR (Js.after BAR line)))).
Proof.
  intros E. unfold parseLine.
  rewrite split_first, E.
  rewrite (split_first BAR (Js.after BAR line)). reflexivity.
Qed.

Lemma parseLine_without_bar (line : string) :
  Js.includes BAR line = false ->
  parseLine line = mkScene (Js.trim line) None.
Proof.
  intros E. unfold parseLine. now rewrite (split_without_sep _ _ E).
Qed.

(** C5, as stated, fails on a line with two delimiters: the line is
    split at every delimiter and only the first two pieces are kept, so
    the body of "a | b | c" is "b" and not "b | c", the trimmed text after
    the first delimiter. *)
Lemma body_drops_text_after_second_bar :
  scriptLines "a | b | c" = ["a | b | c"] /\
  Js.includes BAR "a | b | c" = true /\
  Js.trim (Js.after BAR "a | b | c") = "b | c" /\
  scenes "a | b | c" = [mkScene "a" (Some "b")] /\
  ~ (forall line, Js.includes BAR line = true ->
                  body (parseLine line) = Some (Js.trim (Js.after BAR line))).
Proof.
  repeat split.
  intros H. specialize (H "a | b | c" eq_refl). discriminate H.
Qed.

(** C5, amended. Scene [i] is parsed from the [i]-th non-empty trimmed
    line.  When the line contains the delimiter, the title is the trimmed
    text before the first delimiter and the body is the trimmed text
    between the first delimiter and the second one, or the end of the
    line when there is no second one: with exactly one delimiter the body
    is the trimmed text after it, and whatever follows a second delimiter
    is dropped.  When the line has no delimiter, the body is undefined. *)
Theorem scenes_title_body (script : string) (i : nat) (line : string) :
  nth_error (scriptLines script) i = Some line ->
  exists sc,
    nth_error (scenes script) i = Some sc /\
    (Js.includes BAR line = true ->
       title sc = Js.trim (Js.before BAR line) /\
       body sc = Some (Js.trim (Js.before BAR (Js.after BAR line))) /\
       (Js.includes BAR (Js.after BAR line) = false ->
        body sc = Some (Js.trim (Js.after BAR line)))) /\
    (Js.includes BAR line = false -> body sc = None).
Proof.
  intros Hline. exists (parseLine line). split; [|split].
  - unfold scenes. now apply map_nth_error.
  - intros E. rewrite (parseLine_with_bar _ E). cbn [title body].
    split; [reflexivity|]. split; [reflexivity|].
    intros E2. now rewrite (before_without_sep _ _ E2).
  - intros E. now rewrite (parseLine_without_bar _ E).
Qed.

Lemma scenes_title_body_witness :
  exists sc,
    nth_error (scenes ("A|one" ++ String LF "B | two | more")%string) 1 = Some sc /\
    (Js.includes BAR "B | two | more" = true ->
       title sc = Js.trim (Js.before BAR "B | two | more") /\
       body sc = Some (Js.trim (Js.before BAR (Js.after BAR "B | two | more"))) /\
       (Js.includes BAR (Js.after BAR "B | two | more") = false ->
        body sc = Some (Js.trim (Js.after BAR "B | two | more")))) /\
    (Js.includes BAR "B | two | more" = false -> body sc = None).
Proof.
  apply (scenes_title_body ("A|one" ++ String LF "B | two | more")%string 1
                           "B | two | more").
  reflexivity.
Defined.

(** With exactly one delimiter the body is everything after it; a third
    segment is dropped. *)
Lemma parseLine_one_bar (line : string) :
  Js.includes BAR line = true ->
  Js.includes BAR (Js.after BAR line) = false ->
  body (parseLine line) = Some (Js.trim (Js.after BAR line)).
Proof.
  intros E1 E2. rewrite (parseLine_with_bar _ E1). cbn.
  now rewrite (before_without_sep _ _ E2).
Qed.

Example parseLine_three_segments :
  parseLine "a | b | c" = mkScene "a" (Some "b").
Proof. reflexivity. Qed.

(** ** Word wrap *)

Lemma concat_merge (sep : string) (xs ys : list string) (a b : string) :
  String.concat sep (xs ++ a :: b :: ys) =
  String.concat sep (xs ++ (a ++ sep ++ b)%string :: ys).
Proof.
  induction xs as [|x xs IH].
  - cbn. destruct ys as [|y ys]; [reflexivity|].
    now rewrite !string_app_assoc.
  - change ((x :: xs) ++ a :: b :: ys) with (x :: (xs ++ a :: b :: ys)).
    change ((x :: xs) ++ (a ++ sep ++ b)%string :: ys)
      with (x :: (xs ++ (a ++ sep ++ b)%string :: ys)).
    destruct xs as [|x' xs']; cbn in *; now rewrite IH.
Qed.

Section WordWrapFacts.

Variable measure : string -> Q.
Variable maxWidth : Q.

Let step := wrapStep measure maxWidth.
Let loop := wrapLoop measure maxWidth.
Let lines_of := wrapLines measure maxWidth.
Let settled := settled measure maxWidth.

(** The first word of a line is taken whatever its width. *)
Lemma wrapStep_fresh (lines : list string) (word : string) :
  step (lines, EmptyString) word = (lines, word).
Proof. unfold step, wrapStep. cbn. now rewrite andb_false_r. Qed.

Lemma wrapStep_commit (lines : list string) (cur word : string) :
  cur <> EmptyString ->
  tooWide measure maxWidth (cur ++ " " ++ word)%string = true ->
  step (lines, cur) word = (lines ++ [cur], word).
Proof.
  intros Hc Hw. apply isEmpty_false in Hc.
  unfold step, wrapStep. now rewrite Hc, Hw.
Qed.

Lemma wrapStep_extend (lines : list string) (cur word : string) :
  cur <> EmptyString ->
  tooWide measure maxWidth (cur ++ " " ++ word)%string = false ->
  step (lines, cur) word = (lines, (cur ++ " " ++ word)%string).
Proof.
  intros Hc Hw. apply isEmpty_false in Hc.
  unfold step, wrapStep. now rewrite Hc, Hw.
Qed.

Lemma wrapLines_empty : lines_of EmptyString = [].
Proof.
  unfold lines_of, wrapLines, wrapLoop. cbn [Js.split fold_left].
  fold step. now rewrite wrapStep_fresh.
Qed.

(** A text without a space is one line, whatever [maxWidth] is. *)
Lemma wrapLines_single_word (text : string) :
  Js.includes SPACE text = false -> text <> EmptyString ->
  lines_of text = [text].
Proof.
  intros Hs Hne. unfold lines_of, wrapLines.
  rewrite (split_without_sep _ _ Hs). cbn.
  rewrite andb_false_r. apply isEmpty_false in Hne. now rewrite Hne.
Qed.

(** Loop invariant for reconstruction: while every word is non-empty,
    joining the committed lines and the current line gives back the
    words read so far. *)
Lemma wrapLoop_join (words : list string) :
  Forall (fun w => w <> EmptyString) words ->
  forall (lines : list string) (cur : string),
    cur <> EmptyString ->
    let '(lines', cur') := loop words (lines, cur) in
    cur' <> EmptyString /\
    String.concat " " (lines' ++ [cur']) =
    String.concat " " (lines ++ cur :: words).
Proof.
  induction 1 as [|w ws Hw _ IH]; intros lines cur Hc.
  - cbn. now split.
  - unfold loop, wrapLoop. cbn [fold_left].
    destruct (tooWide measure maxWidth (cur ++ " " ++ w)%string) eqn:E.
    + fold step. rewrite (wrapStep_commit lines cur w Hc E).
      specialize (IH (lines ++ [cur]) w Hw).
      unfold loop, wrapLoop in IH.
      destruct (fold_left _ ws _) as [l' c'].
      destruct IH as [IH1 IH2]. split; [assumption|].
      rewrite IH2, <- app_assoc. reflexivity.
    + fold step. rewrite (wrapStep_extend lines cur w Hc E).
      assert (Hn : (cur ++ " " ++ w)%string <> EmptyString)
        by (destruct cur; [congruence | discriminate]).
      specialize (IH lines _ Hn).
      unfold loop, wrapLoop in IH.
      destruct (fold_left _ ws _) as [l' c'].
      destruct IH as [IH1 IH2]. split; [assumption|].
      rewrite IH2. symmetry. apply concat_merge.
Qed.

Lemma wrapLines_join (text : string) :
  Forall (fun w => w <> EmptyString) (Js.split SPACE text) ->
  Js.join " " (lines_of text) = text.
Proof.
  intros Hall.
  pose proof (join_split SPACE text) as Hjs.
  unfold lines_of, wrapLines.
  destruct (Js.split SPACE text) as [|w ws] eqn:Es;
    [now apply split_not_nil in Es|].
  apply Forall_cons_iff in Hall. destruct Hall as [Hw Hws].
  unfold wrapLoop. cbn [fold_left]. fold step. rewrite wrapStep_fresh.
  pose proof (wrapLoop_join ws Hws [] w Hw) as Hinv.
  unfold loop, wrapLoop in Hinv.
  destruct (fold_left _ ws _) as [l' c'].
  destruct Hinv as [Hc' Hj].
  apply isEmpty_false in Hc'. rewrite Hc'. cbn [negb].
  unfold Js.join in *. rewrite Hj. exact Hjs.
Qed.

Lemma settled_word (w : string) :
  Js.includes SPACE w = false -> w <> EmptyString -> settled w.
Proof.
  intros Hs Hne. split; [assumption|].
  rewrite (split_without_sep _ _ Hs).
  unfold loop, wrapLoop. cbn [fold_left]. fold step. apply wrapStep_fresh.
Qed.

Lemma settled_extend (cur w : string) :
  settled cur -> Js.includes SPACE w = false ->
  tooWide measure maxWidth (cur ++ " " ++ w)%string = false ->
  settled (cur ++ " " ++ w)%string.
Proof.
  intros [Hne Hl] Hs Hw. split.
  - destruct cur; [congruence | discriminate].
  - change (cur ++ " " ++ w)%string with (cur ++ String SPACE w)%string.
    rewrite split_app, (split_without_sep _ _ Hs).
    unfold loop, wrapLoop in *. rewrite fold_left_app, Hl.
    cbn [fold_left]. fold step. now apply wrapStep_extend.
Qed.

Lemma settled_wraps_to_itself (line : string) :
  settled line -> lines_of line = [line].
Proof.
  intros [Hne Hl]. unfold lines_of, wrapLines.
  unfold loop in Hl. rewrite Hl.
  apply isEmpty_false in Hne. now rewrite Hne.
Qed.

(** Loop invariant for idempotence. *)
Lemma wrapLoop_settled (words : list string) :
  Forall (fun w => Js.includes SPACE w = false) words ->
  forall (lines : list string) (cur : string),
    Forall settled lines ->
    cur = EmptyString \/ settled cur ->
    let '(lines', cur') := loop words (lines, cur) in
    Forall settled lines' /\ (cur' = EmptyString \/ settled cur').
Proof.
  induction 1 as [|w ws Hw _ IH]; intros lines cur Hl Hc.
  - cbn. now split.
  - unfold loop, wrapLoop. cbn [fold_left]. fold step.
    assert (Hword : w = EmptyString \/ settled w).
    { destruct w as [|c w'] eqn:Ew; [now left | right].
      apply settled_word; [assumption | discriminate]. }
    destruct Hc as [-> | Hc].
    + rewrite wrapStep_fresh. now apply IH.
    + destruct (tooWide measure maxWidth (cur ++ " " ++ w)%string) eqn:E.
      * rewrite (wrapStep_commit lines cur w (proj1 Hc) E).
        apply IH; [|assumption].
        apply Forall_app. split; [assumption | now constructor].
      * rewrite (wrapStep_extend lines cur w (proj1 Hc) E).
        apply IH; [assumption|]. right. now apply settled_extend.
Qed.

Lemma wrapLines_settled (text : string) :
  Forall settled (lines_of text).
Proof.
  pose proof (wrapLoop_settled _ (split_segments_sep_free SPACE text)
                [] EmptyString (Forall_nil _) (or_introl eq_refl)) as Hinv.
  unfold lines_of, wrapLines. unfold loop in Hinv.
  destruct (wrapLoop measure maxWidth (Js.split SPACE text) ([], EmptyString))
    as [l' c'].
  destruct Hinv as [Hl Hc].
  destruct (Js.isEmpty c') eqn:E; cbn [negb]; [assumption|].
  apply Forall_app. split; [assumption|].
  constructor; [|constructor].
  destruct Hc as [-> | Hc]; [discriminate E | assumption].
Qed.

End WordWrapFacts.

Lemma flat_map_fixed {A : Type} (f : A -> list A) (xs : list A) :
  Forall (fun x => f x = [x]) xs -> flat_map f xs = xs.
Proof.
  induction 1 as [|x xs Hx _ IH]; cbn; [reflexivity|].
  now rewrite Hx, IH.
Qed.

Lemma split_join (sep : ascii) (xs : list string) :
  xs <> [] ->
  Js.split sep (Js.join (String sep EmptyString) xs) = flat_map (Js.split sep) xs.
Proof.
  unfold Js.join.
  induction xs as [|x xs IH]; [congruence|]. intros _.
  destruct xs as [|y ys].
  - cbn. now rewrite app_nil_r.
  - change (String.concat (String sep "") (x :: y :: ys))
      with (x ++ String sep (String.concat (String sep "") (y :: ys)))%string.
    rewrite split_app, IH by discriminate. reflexivity.
Qed.

(** C3, as stated, fails: a leading space makes the first word empty, and
    the loop then starts the line over with the next word. *)
Lemma wrap_join_loses_leading_space :
  wrapLines (fun _ => 0) 100 " a" = ["a"] /\
  ~ (forall (measure : string -> Q) (maxWidth : Q) (text : string),
       Js.join " " (wrapLines measure maxWidth text) = text).
Proof.
  split; [reflexivity|].
  intros H. specialize (H (fun _ => 0) 100 " a"). discriminate H.
Qed.

(** C3, amended. For a text none of whose space-separated words is empty
    (no leading, trailing or doubled space), whatever the measurement
    function and the maximum width: joining the wrapped lines with single
    spaces gives back the text; the words of the lines, read in order, are
    the words of the text, so no break falls inside a word; and a text of
    one word is one line, however wide the word is. *)
Theorem wrap_join_reconstructs
  (measure : string -> Q) (maxWidth : Q) (text : string)
  (Hwords : Forall (fun w => w <> EmptyString) (Js.split SPACE text)) :
  Js.join " " (wrapLines measure maxWidth text) = text /\
  flat_map (Js.split SPACE) (wrapLines measure maxWidth text) = Js.split SPACE text /\
  (Js.includes SPACE text = false -> wrapLines measure maxWidth text = [text]).
Proof.
  pose proof (wrapLines_join measure maxWidth text Hwords) as Hj.
  assert (Hne : text <> EmptyString).
  { intros ->. cbn in Hwords. apply Forall_cons_iff in Hwords.
    now destruct Hwords as [Habs _]. }
  split; [exact Hj|]. split.
  - rewrite <- split_join.
    + change (String SPACE "") with " ". now rewrite Hj.
    + intros E. rewrite E in Hj. cbn in Hj. now apply Hne.
  - intros Hs. now apply wrapLines_single_word.
Qed.

Lemma wrap_join_reconstructs_witness :
  let measure := fun s : string => inject_Z (Z.of_nat (String.length s)) in
  Js.join " " (wrapLines measure 5 "ab cd incomprehensible ef") =
    "ab cd incomprehensible ef" /\
  flat_map (Js.split SPACE) (wrapLines measure 5 "ab cd incomprehensible ef") =
    Js.split SPACE "ab cd incomprehensible ef" /\
  (Js.includes SPACE "ab cd incomprehensible ef" = false ->
   wrapLines measure 5 "ab cd incomprehensible ef" = ["ab cd incomprehensible ef"]).
Proof.
  intros measure.
  apply (wrap_join_reconstructs measure 5 "ab cd incomprehensible ef").
  cbn [Js.split SPACE Ascii.eqb Bool.eqb andb].
  repeat (apply Forall_cons; [discriminate|]). apply Forall_nil.
Defined.

Example wrap_lines_ex :
  wrapLines (fun s => inject_Z (Z.of_nat (String.length s))) 5
            "ab cd incomprehensible ef" =
  ["ab cd"; "incomprehensible"; "ef"].
Proof. reflexivity. Qed.

(** C4. Whatever the text, the maximum width and the measurement
    function, wrapping a line of the output again with the same width
    gives that line alone, so re-wrapping every line keeps the number of
    lines. *)
Theorem wrap_idempotent (measure : string -> Q) (maxWidth : Q) (text : string) :
  Forall (fun line => wrapLines measure maxWidth line = [line])
         (wrapLines measure maxWidth text) /\
  List.length (flat_map (wrapLines measure maxWidth)
                        (wrapLines measure maxWidth text)) =
  List.length (wrapLines measure maxWidth text).
Proof.
  assert (H : Forall (fun line => wrapLines measure maxWidth line = [line])
                     (wrapLines measure maxWidth text)).
  { eapply Forall_impl; [|apply wrapLines_settled].
    intros line. apply settled_wraps_to_itself. }
  split; [exact H|].
  now rewrite (flat_map_fixed _ _ H).
Qed.

(** ** Painting of wrapped text *)

Lemma exec_bind {A B : Type} (m : Draw A) (k : A -> Draw B) (ctx : Context) :
  exec (bind m k) ctx = exec (k (fst (m ctx))) (snd (m ctx)).
Proof. unfold exec, bind. now destruct (m ctx). Qed.

Lemma bind_run {A B : Type} (m : Draw A) (k : A -> Draw B) (ctx : Context) :
  bind m k ctx = k (fst (m ctx)) (snd (m ctx)).
Proof. unfold bind. now destruct (m ctx). Qed.

Lemma bind_run_exec {A B : Type} (m : Draw A) (k : A -> Draw B) (ctx : Context) :
  exec (bind m k) ctx = snd (k (fst (m ctx)) (snd (m ctx))).
Proof. unfold exec. now rewrite bind_run. Qed.

(** An assignment to [fillStyle] overwrites the one before it. *)
Lemma set_fillStyle_twice (f g : Style) (ctx : Context) :
  Ctx.set_fillStyle g (exec (Ctx.set_fillStyle f) ctx) = Ctx.set_fillStyle g ctx.
Proof. reflexivity. Qed.

Lemma wrapText_empty (measureText : string -> string -> Q)
      (cx cy maxWidth : Q) (ctx : Context) :
  wrapText measureText EmptyString cx cy maxWidth ctx = (tt, ctx).
Proof.
  unfold wrapText, bind, getState. now rewrite wrapLines_empty.
Qed.

(** ** Timeline arithmetic *)

Lemma floor_div (a b : Z) : Math_floor (inject_Z a / inject_Z b) = (a / b)%Z.
Proof. unfold Math_floor. symmetry. apply Zdiv_Qdiv. Qed.

Lemma fadeSpan_eq (perScene : Z) :
  Timeline.fadeSpan perScene = Z.max 6 (perScene / 6).
Proof.
  unfold Timeline.fadeSpan. change (6 : Q) with (inject_Z 6).
  now rewrite floor_div.
Qed.

Lemma fadeSpan_ge_6 (perScene : Z) : (6 <= Timeline.fadeSpan perScene)%Z.
Proof. rewrite fadeSpan_eq. lia. Qed.

Lemma fadeSpan_twice (perScene : Z) :
  (12 <= perScene)%Z -> (2 * Timeline.fadeSpan perScene <= perScene)%Z.
Proof.
  intros H. rewrite fadeSpan_eq.
  pose proof (Z.mul_div_le perScene 6 ltac:(lia)). lia.
Qed.

Lemma frameWithinScene_bounds (perScene currentFrame : Z) :
  (1 <= perScene)%Z -> (0 <= currentFrame)%Z ->
  (0 <= Timeline.frameWithinScene perScene currentFrame < perScene)%Z.
Proof.
  intros Hp Hc. unfold Timeline.frameWithinScene.
  apply Z.rem_bound_pos; lia.
Qed.

Lemma Qmax_0_nonneg (x : Q) : 0 <= x -> Qmax 0 x = x.
Proof.
  intros H. unfold Qmax.
  destruct (Qle_bool 0 x) eqn:E; [reflexivity|].
  apply Qle_bool_iff in H. congruence.
Qed.

Lemma ratio_bounds (a b : Z) :
  (0 <= a)%Z -> (a < b)%Z -> 0 <= inject_Z a / inject_Z b /\ inject_Z a / inject_Z b < 1.
Proof.
  intros Ha Hab.
  assert (Hb : 0 < inject_Z b) by (change 0 with (inject_Z 0); rewrite <- Zlt_Qlt; lia).
  split.
  - apply Qle_shift_div_l; [exact Hb|].
    rewrite Qmult_0_l. change 0 with (inject_Z 0). rewrite <- Zle_Qle. lia.
  - apply Qlt_shift_div_r; [exact Hb|].
    rewrite Qmult_1_l. rewrite <- Zlt_Qlt. lia.
Qed.

Lemma ratio_one (b : Z) : (0 < b)%Z -> inject_Z b / inject_Z b == 1.
Proof.
  intros Hb. unfold Qdiv. apply Qmult_inv_r.
  intros E. unfold Qeq in E. cbn in E. lia.
Qed.

Lemma ratio_zero (b : Z) : inject_Z 0 / inject_Z b == 0.
Proof. unfold Qdiv. apply Qmult_0_l. Qed.

Lemma opacityWithin_fade_in (perScene within : Z) :
  (within < Timeline.fadeSpan perScene)%Z ->
  Timeline.opacityWithin perScene within =
  inject_Z within / inject_Z (Timeline.fadeSpan perScene).
Proof.
  intros H. unfold Timeline.opacityWithin.
  now rewrite (proj2 (Z.ltb_lt _ _) H).
Qed.

Lemma opacityWithin_fade_out (perScene within : Z) :
  (Timeline.fadeSpan perScene <= within)%Z ->
  (perScene - Timeline.fadeSpan perScene < within)%Z ->
  Timeline.opacityWithin perScene within =
  Qmax 0 (inject_Z (perScene - within) / inject_Z (Timeline.fadeSpan perScene)).
Proof.
  intros H1 H2. unfold Timeline.opacityWithin.
  rewrite (proj2 (Z.ltb_ge _ _) H1).
  now rewrite (proj2 (Z.gtb_lt _ _) H2).
Qed.

Lemma opacityWithin_hold (perScene within : Z) :
  (Timeline.fadeSpan perScene <= within)%Z ->
  (within <= perScene - Timeline.fadeSpan perScene)%Z ->
  Timeline.opacityWithin perScene within = 1.
Proof.
  intros H1 H2. unfold Timeline.opacityWithin.
  rewrite (proj2 (Z.ltb_ge _ _) H1).
  destruct (within >? perScene - Timeline.fadeSpan perScene)%Z eqn:E; [|reflexivity].
  apply Z.gtb_lt in E. lia.
Qed.

(** C1, as stated, fails at frame 119: the step is one frame before the
    end of the fade-out and the opacity is 1/20, not about 1. *)
Lemma scenario_frame_119_is_fading_out :
  Timeline.phase 120 (Timeline.frameWithinScene 120 119) = Timeline.FadeOut /\
  Timeline.opacity (Timeline.framesPerScene 4) 119 == 1 # 20 /\
  ~ (1 - Timeline.opacity (Timeline.framesPerScene 4) 119 <= 1 # 2).
Proof.
  split; [reflexivity|]. split; [reflexivity|].
  intros H. vm_compute in H. now apply H.
Qed.

(** C1, amended. The script of two lines "A|one", "B|two" with a scene
    duration of 4 seconds parses to exactly 2 scenes, with
    framesPerScene = 120 and totalFrames = 240.  The timeline step has
    sceneIndex 0 and opacity 0 at frame 0; sceneIndex 0 and opacity 1/20
    at frame 119, inside the fade-out that covers the frames after 100
    (the opacity is 1 from frame 20 to frame 100); and sceneIndex 1 at
    frame 120. *)
Theorem scenario_two_scenes :
  let script := ("A|one" ++ String LF "B|two")%string in
  let perScene := Timeline.framesPerScene 4 in
  scenes script = [mkScene "A" (Some "one"); mkScene "B" (Some "two")] /\
  List.length (scenes script) = 2%nat /\
  perScene = 120%Z /\
  Timeline.totalFrames 4 (List.length (scenes script)) = 240%Z /\
  Timeline.sceneIndex 2 perScene 0 = 0%Z /\
  Timeline.opacity perScene 0 == 0 /\
  Timeline.sceneIndex 2 perScene 119 = 0%Z /\
  Timeline.opacity perScene 119 == 1 # 20 /\
  Timeline.opacity perScene 20 == 1 /\
  Timeline.opacity perScene 100 == 1 /\
  Timeline.phase perScene (Timeline.frameWithinScene perScene 101) = Timeline.FadeOut /\
  Timeline.sceneIndex 2 perScene 120 = 1%Z.
Proof. cbv zeta. repeat split; reflexivity. Qed.

(** C2, as stated, fails for a scene of 10 frames (a duration of a third
    of a second): fadeSpan is 6, the fade-out window starts after frame 4,
    and at frameWithinScene = fadeSpan the opacity is 2/3. *)
Lemma short_scene_never_fully_opaque :
  Timeline.framesPerScene (1 # 3) = 10%Z /\
  Timeline.fadeSpan 10 = 6%Z /\
  Timeline.frameWithinScene 10 6 = 6%Z /\
  Timeline.opacity 10 6 == 2 # 3 /\
  ~ (Timeline.opacity 10 6 == 1).
Proof.
  repeat split; try reflexivity.
  intros H. vm_compute in H. discriminate H.
Qed.

(** C2, amended. For every framesPerScene of at least 1 and every frame,
    the opacity is 0 when frameWithinScene is 0.  When framesPerScene is
    at least 12, so that the fade-in and fade-out windows do not overlap,
    the opacity is 1 at frameWithinScene = fadeSpan, and over the last
    fadeSpan frames of the scene it is
    (framesPerScene - frameWithinScene) / fadeSpan clamped to be at least
    0, which is the fade-in value at the mirrored position
    framesPerScene - frameWithinScene.  The scene count plays no part. *)
Theorem opacity_profile (perScene currentFrame : Z)
  (Hp : (1 <= perScene)%Z) (Hc : (0 <= currentFrame)%Z) :
  let span := Timeline.fadeSpan perScene in
  let within := Timeline.frameWithinScene perScene currentFrame in
  let opacity := Timeline.opacity perScene currentFrame in
  (within = 0%Z -> opacity == 0) /\
  ((12 <= perScene)%Z ->
   (within = span -> opacity == 1) /\
   ((perScene - span <= within)%Z ->
    opacity == Qmax 0 (inject_Z (perScene - within) / inject_Z span) /\
    opacity == Timeline.opacityWithin perScene (perScene - within))).
Proof.
  intros span within opacity.
  pose proof (fadeSpan_ge_6 perScene) as H6. fold span in H6.
  pose proof (frameWithinScene_bounds perScene currentFrame Hp Hc) as Hw.
  fold within in Hw.
  unfold opacity, Timeline.opacity. fold within.
  split.
  - intros E. rewrite E, opacityWithin_fade_in by (fold span; lia).
    apply ratio_zero.
  - intros H12. pose proof (fadeSpan_twice perScene H12) as H2. fold span in H2.
    split.
    + intros E. rewrite E, opacityWithin_hold by (fold span; lia). reflexivity.
    + intros Htail.
      assert (Hk : (0 <= perScene - within)%Z) by lia.
      destruct (Z.eq_dec within (perScene - span)) as [E | NE].
      * rewrite (opacityWithin_hold perScene within) by (fold span; lia).
        replace (perScene - within)%Z with span by lia.
        rewrite (opacityWithin_hold perScene span) by (fold span; lia).
        split; [|reflexivity].
        rewrite Qmax_0_nonneg.
        -- symmetry. apply ratio_one. lia.
        -- rewrite (ratio_one span) by lia. discriminate.
      * rewrite (opacityWithin_fade_out perScene within) by (fold span; lia).
        fold span. split; [reflexivity|].
        rewrite (opacityWithin_fade_in perScene (perScene - within)) by (fold span; lia).
        fold span. rewrite Qmax_0_nonneg; [reflexivity|].
        apply ratio_bounds; lia.
Qed.

Lemma opacity_profile_witness :
  let span := Timeline.fadeSpan 120 in
  let within := Timeline.frameWithinScene 120 359 in
  let opacity := Timeline.opacity 120 359 in
  (within = 0%Z -> opacity == 0) /\
  ((12 <= 120)%Z ->
   (within = span -> opacity == 1) /\
   ((120 - span <= within)%Z ->
    opacity == Qmax 0 (inject_Z (120 - within) / inject_Z span) /\
    opacity == Timeline.opacityWithin 120 (120 - within))).
Proof. apply (opacity_profile 120 359); lia. Defined.

(** C10. For every framesPerScene of at least 1 and every frame counter
    from 0 on (in particular from 0 to totalFrames), the opacity computed
    by the timeline step lies in [0, 1]: in the fade-in branch it is at
    least 0 and strictly below 1, in the fade-out branch it is at least
    0 (the clamp) and strictly below 1, and in the hold branch it is 1. *)
Theorem opacity_is_valid_alpha (perScene currentFrame : Z)
  (Hp : (1 <= perScene)%Z) (Hc : (0 <= currentFrame)%Z) :
  let opacity := Timeline.opacity perScene currentFrame in
  (0 <= opacity /\ opacity <= 1) /\
  match Timeline.phase perScene (Timeline.frameWithinScene perScene currentFrame) with
  | Timeline.FadeIn => 0 <= opacity /\ opacity < 1
  | Timeline.FadeOut => 0 <= opacity /\ opacity < 1
  | Timeline.Hold => opacity = 1
  end.
Proof.
  intros opacity.
  pose proof (fadeSpan_ge_6 perScene) as H6.
  pose proof (frameWithinScene_bounds perScene currentFrame Hp Hc) as Hw.
  unfold opacity, Timeline.opacity, Timeline.phase.
  set (within := Timeline.frameWithinScene perScene currentFrame) in *.
  set (span := Timeline.fadeSpan perScene) in *.
  destruct (within <? span)%Z eqn:E1.
  - apply Z.ltb_lt in E1.
    rewrite opacityWithin_fade_in by (fold span; lia). fold span.
    destruct (ratio_bounds within span) as [Hlo Hhi]; try lia.
    repeat split; try assumption. now apply Qlt_le_weak.
  - apply Z.ltb_ge in E1.
    destruct (within >? perScene - span)%Z eqn:E2.
    + apply Z.gtb_lt in E2.
      rewrite opacityWithin_fade_out by (fold span; lia). fold span.
      destruct (ratio_bounds (perScene - within) span) as [Hlo Hhi]; try lia.
      rewrite Qmax_0_nonneg by assumption.
      repeat split; try assumption. now apply Qlt_le_weak.
    + assert (E3 : (within <= perScene - span)%Z).
      { destruct (Z.gtb_spec within (perScene - span)); [discriminate | lia]. }
      rewrite opacityWithin_hold by (fold span; lia).
      repeat split; discriminate.
Qed.

Lemma opacity_is_valid_alpha_witness :
  let opacity := Timeline.opacity 120 119 in
  (0 <= opacity /\ opacity <= 1) /\
  match Timeline.phase 120 (Timeline.frameWithinScene 120 119) with
  | Timeline.FadeIn => 0 <= opacity /\ opacity < 1
  | Timeline.FadeOut => 0 <= opacity /\ opacity < 1
  | Timeline.Hold => opacity = 1
  end.
Proof. apply (opacity_is_valid_alpha 120 119); lia. Defined.

(** ** Timeline driver *)

Section DriverFacts.

Variables Math_sin Math_cos : Angle -> Q.
Variable measureText : string -> string -> Q.
Variable cfg : StyleConfig.

Let frame := renderFrame Math_sin Math_cos measureText cfg.
Let reached := LoopState Math_sin Math_cos measureText cfg.

Lemma renderFrame_scheduled (p : Page) (s : Session) :
  (currentFrame s + 1 <= totalFrames s)%Z ->
  let ps' := frame (p, s) in
  rafRef (fst ps') = Some (nextHandle p) /\
  recorderRef (fst ps') = recorderRef p /\
  calls (fst ps') = calls p ++ [RequestAnimationFrame (nextHandle p)] /\
  currentFrame (snd ps') = (currentFrame s + 1)%Z /\
  totalFrames (snd ps') = totalFrames s.
Proof.
  intros H. unfold frame, renderFrame. cbn [currentFrame totalFrames].
  rewrite (proj2 (Z.leb_le _ _) H). cbn. repeat split; reflexivity.
Qed.

Lemma renderFrame_finished (p : Page) (s : Session) :
  (totalFrames s < currentFrame s + 1)%Z ->
  let ps' := frame (p, s) in
  rafRef (fst ps') = None /\
  (forall r, recorderRef p = Some r ->
             recorderStopped (fst ps') /\
             (recorderState r = Recording ->
              calls (fst ps') = calls p ++ [RecorderStop])) /\
  currentFrame (snd ps') = (currentFrame s + 1)%Z /\
  totalFrames (snd ps') = totalFrames s.
Proof.
  intros H. unfold frame, renderFrame. cbn [currentFrame totalFrames].
  rewrite (proj2 (Z.leb_gt _ _) H). cbn [fst snd currentFrame totalFrames].
  unfold stopRecorder, recorderStopped. cbn [recorderRef setRafRef setContext].
  destruct (recorderRef p) as [r|] eqn:Er.
  - destruct r as [m b st col]. cbn [recorderState].
    destruct st; cbn;
      (split; [reflexivity|]); (split; [|split; reflexivity]);
      intros r' E; injection E as <-.
    + split; [|discriminate].
      eexists. split; [eassumption | reflexivity].
    + split; [|reflexivity].
      eexists. split; reflexivity.
  - cbn. split; [reflexivity|]. split; [|split; reflexivity].
    intros r' E. congruence.
Qed.

Lemma renderFrame_counts (ps : Page * Session) :
  currentFrame (snd (frame ps)) = (currentFrame (snd ps) + 1)%Z /\
  totalFrames (snd (frame ps)) = totalFrames (snd ps).
Proof.
  destruct ps as [p s]. unfold frame, renderFrame. cbn [currentFrame totalFrames snd].
  destruct (_ <=? _)%Z; cbn; split; reflexivity.
Qed.

Lemma stopRecorder_rafRef (detach : bool) (p : Page) :
  rafRef (stopRecorder detach p) = rafRef p.
Proof.
  unfold stopRecorder. destruct (recorderRef p) as [r|]; [|reflexivity].
  destruct (recorderState r); reflexivity.
Qed.

Lemma teardownRecording_rafRef (p : Page) :
  rafRef (teardownRecording p) = None /\ recorderRef (teardownRecording p) = None.
Proof.
  unfold teardownRecording. cbn [rafRef recorderRef setRecorderRef].
  split; [|reflexivity].
  rewrite stopRecorder_rafRef. destruct (rafRef p) eqn:E; [reflexivity | exact E].
Qed.

(** What [startRender] hands to the first call of [renderFrame]. *)
Lemma startRender_session (host : Host) (script : string) (p p0 : Page) (s0 : Session) :
  startRender cfg host script p = (p0, Some s0) ->
  scenes script <> [] /\
  sessionScenes s0 = scenes script /\
  currentFrame s0 = 0%Z /\
  framesPerScene s0 = Timeline.framesPerScene (sceneDuration cfg) /\
  totalFrames s0 =
    Timeline.totalFrames (sceneDuration cfg) (List.length (scenes script)) /\
  (1 <= totalFrames s0)%Z /\
  rafRef p0 = None /\
  exists r, recorderRef p0 = Some r /\ recorderState r = Recording.
Proof.
  unfold startRender.
  destruct (isClient host); cbn [negb]; [|discriminate].
  destruct (hasMediaRecorder host); cbn [negb]; [|discriminate].
  destruct (canvasMounted host); cbn [negb]; [|discriminate].
  destruct (List.length (scenes script) =? 0)%nat eqn:El; [discriminate|].
  apply Nat.eqb_neq in El.
  destruct (contextAvailable host); cbn [negb]; [|discriminate].
  destruct (find (isTypeSupported host) MIME_PREFERENCE) as [mime|]; [|discriminate].
  intros E. injection E as <- <-. cbn.
  repeat split; try reflexivity.
  - intros E. rewrite E in El. now apply El.
  - unfold Timeline.framesPerScene. nia.
  - apply teardownRecording_rafRef.
  - eexists. split; reflexivity.
Qed.

Lemma renderFrame_invariant (total : Z) (p : Page) (s : Session) :
  totalFrames s = total ->
  (0 <= currentFrame s <= total)%Z ->
  (exists r, recorderRef p = Some r /\ recorderState r = Recording) ->
  loopInvariant total (frame (p, s)).
Proof.
  intros HT Hc [r [Hr Hst]]. unfold loopInvariant.
  destruct (Z_le_gt_dec (currentFrame s + 1) (totalFrames s)) as [Hle | Hgt].
  - destruct (renderFrame_scheduled p s Hle) as (Hraf & Hrec & _ & Hcur & Htot).
    cbv zeta in *. rewrite Hcur, Htot, Hraf, Hrec.
    split; [assumption|]. split; [lia|]. left.
    split; [lia|]. split; [discriminate|]. now exists r.
  - destruct (renderFrame_finished p s ltac:(lia)) as (Hraf & Hrec & Hcur & Htot).
    cbv zeta in *. destruct (Hrec r Hr) as [Hstop Hcalls].
    rewrite Hcur, Htot, Hraf.
    split; [assumption|]. split; [lia|]. right.
    split; [lia|]. split; [reflexivity|]. split; [assumption|].
    rewrite (Hcalls Hst). apply in_or_app. right. now left.
Qed.

Lemma loop_states_invariant (start : Page * Session) (total : Z) :
  totalFrames (snd start) = total ->
  currentFrame (snd start) = 0%Z ->
  (0 <= total)%Z ->
  (exists r, recorderRef (fst start) = Some r /\ recorderState r = Recording) ->
  forall ps, reached start ps -> loopInvariant total ps.
Proof.
  intros HT H0 Hpos Hrec ps Hreach.
  induction Hreach as [|[p s] Hreach IH Hraf].
  - destruct start as [p s]. cbn [fst snd] in *.
    apply renderFrame_invariant; [assumption | lia | assumption].
  - destruct IH as (IHT & IHc & [(Hle & _ & Hr) | (_ & Hnone & _)]).
    + cbn [fst snd] in *. apply renderFrame_invariant; [assumption | lia | assumption].
    + cbn [fst] in Hraf. contradiction.
Qed.

(** The loop stops: after the first call, [total] display refreshes
    bring the driver to the state with no callback pending. *)
Lemma refreshes_complete (n : nat) :
  forall (ps : Page * Session) (total : Z),
    loopInvariant total ps ->
    (total + 1 - currentFrame (snd ps) <= Z.of_nat n)%Z ->
    let final := refreshes Math_sin Math_cos measureText cfg n ps in
    loopInvariant total final /\
    rafRef (fst final) = None /\
    currentFrame (snd final) = (total + 1)%Z.
Proof.
  induction n as [|n IH]; intros [p s] total Hinv Hfuel; cbn [refreshes].
  - destruct Hinv as (HT & Hc & [(Hle & _) | (Heq & Hnone & Hrest)]);
      cbn [fst snd] in *; [lia|].
    split; [|now split].
    split; [assumption|]. split; [assumption|]. right. now repeat split.
  - unfold animationFrame. cbn [fst].
    pose proof Hinv as Hinv0.
    destruct Hinv as (HT & Hc & [(Hle & Hraf & Hrec) | (Heq & Hnone & Hrest)]);
      cbn [fst snd] in *.
    + destruct (rafRef p) as [h|] eqn:Eraf; [|contradiction].
      fold frame.
      assert (Hnext : loopInvariant total (frame (p, s)))
        by (apply renderFrame_invariant; [assumption | lia | assumption]).
      apply IH; [assumption|].
      destruct (renderFrame_counts (p, s)) as [Hcur _]. fold frame in Hcur.
      rewrite Hcur. cbn [snd]. lia.
    + rewrite Hnone. apply IH; [assumption|]. cbn [snd]. lia.
Qed.

End DriverFacts.

(** C6, as stated, fails in the state that completes the render: the
    counter is incremented before it is compared with totalFrames, so the
    driver stops the recorder with currentFrame = totalFrames + 1.  Here
    one scene of 4 seconds, 120 frames. *)
Lemma completed_state_exceeds_total :
  match handleGenerate sinAtZero cosAtZero fixedPitch defaultStyle
                       capableHost "A" mountedPage with
  | (p, Some s) =>
      let final := refreshes sinAtZero cosAtZero fixedPitch defaultStyle 120 (p, s) in
      rafRef (fst final) = None /\
      last (calls (fst final)) RecorderStart = RecorderStop /\
      totalFrames (snd final) = 120%Z /\
      currentFrame (snd final) = 121%Z /\
      ~ (currentFrame (snd final) <= totalFrames (snd final))%Z
  | (_, None) => False
  end.
Proof. vm_compute. repeat split. intros H. now apply H. Qed.

(** C6, amended. For every render that starts (so for every non-empty
    scene list) and every scene duration: the counter is 0 when the loop
    begins and every timeline step adds exactly 1 to it.  In every state
    of the render loop 1 <= currentFrame <= totalFrames + 1, and either
    currentFrame <= totalFrames, a further step is scheduled and the
    recorder is recording, or currentFrame = totalFrames + 1, nothing is
    scheduled and the recorder has been told to stop.  So every step
    starts, and paints, with 0 <= currentFrame <= totalFrames, and the
    state that completes the render is the one with
    currentFrame = totalFrames + 1.  That state is reached after
    totalFrames display refreshes. *)
Theorem render_loop_frame_counter
  (Math_sin Math_cos : Angle -> Q) (measureText : string -> string -> Q)
  (cfg : StyleConfig) (host : Host) (script : string) (p p0 : Page) (s0 : Session)
  (Hstart : startRender cfg host script p = (p0, Some s0)) :
  let step := renderFrame Math_sin Math_cos measureText cfg in
  let total := Timeline.totalFrames (sceneDuration cfg) (List.length (scenes script)) in
  handleGenerate Math_sin Math_cos measureText cfg host script p =
    (fst (step (p0, s0)), Some (snd (step (p0, s0)))) /\
  scenes script <> [] /\
  currentFrame s0 = 0%Z /\ totalFrames s0 = total /\
  (forall ps, currentFrame (snd (step ps)) = (currentFrame (snd ps) + 1)%Z) /\
  (forall ps, LoopState Math_sin Math_cos measureText cfg (p0, s0) ps ->
              loopInvariant total ps) /\
  (let final := refreshes Math_sin Math_cos measureText cfg
                          (Z.to_nat total) (step (p0, s0)) in
   loopInvariant total final /\
   rafRef (fst final) = None /\
   currentFrame (snd final) = (total + 1)%Z).
Proof.
  intros step total.
  destruct (startRender_session cfg host script p p0 s0 Hstart)
    as (Hne & _ & H0 & _ & HT & Hpos & _ & Hrec).
  fold total in HT.
  split.
  { unfold handleGenerate. rewrite Hstart. fold step.
    now destruct (step (p0, s0)). }
  split; [assumption|]. split; [assumption|]. split; [assumption|].
  split; [intros ps; apply renderFrame_counts|].
  split.
  - apply loop_states_invariant; cbn [fst snd]; try assumption. lia.
  - assert (Hfirst : loopInvariant total (step (p0, s0))).
    { apply renderFrame_invariant; [assumption | lia | assumption]. }
    apply refreshes_complete; [assumption|].
    destruct Hfirst as (_ & Hc & _). lia.
Qed.

Lemma render_loop_frame_counter_witness :
  exists p0 s0,
    startRender defaultStyle capableHost "A" mountedPage = (p0, Some s0) /\
    forall ps,
      LoopState sinAtZero cosAtZero fixedPitch defaultStyle (p0, s0) ps ->
      loopInvariant 120 ps.
Proof.
  eexists. eexists. split; [reflexivity|].
  exact (proj1 (proj2 (proj2 (proj2 (proj2 (proj2
    (render_loop_frame_counter sinAtZero cosAtZero fixedPitch defaultStyle
       capableHost "A" mountedPage _ _ eq_refl))))))).
Defined.

(** ** Guards of [handleGenerate] *)

(** C7, as stated, fails where the browser has no MediaRecorder: that
    guard comes first and the request fails with its message, not with
    the no-scenes message. *)
Lemma no_scenes_error_is_masked :
  let host := mkHost true false true true (fun _ => true) in
  scenes "" = [] /\
  renderError (fst (handleGenerate sinAtZero cosAtZero fixedPitch defaultStyle
                                   host "" mountedPage)) = Some CaptureUnsupported /\
  renderError (fst (handleGenerate sinAtZero cosAtZero fixedPitch defaultStyle
                                   host "" mountedPage)) <> Some NoScenes.
Proof. cbv zeta. repeat split. discriminate. Qed.

(** C7, amended. When the parsed script has no scene, a generate request
    starts no capture session, whatever the browser offers: no session is
    returned (so no chunk buffer exists), no browser call is made (no
    MediaRecorder is constructed or started, no stream is captured, no
    frame is scheduled), the recorder reference is untouched and the
    canvas is not painted.  Where the page runs in a browser that has
    MediaRecorder and the canvas is mounted, the request fails with the
    no-scenes error. *)
Theorem generate_without_scenes
  (Math_sin Math_cos : Angle -> Q) (measureText : string -> string -> Q)
  (cfg : StyleConfig) (host : Host) (script : string) (p : Page)
  (Hnone : scenes script = []) :
  let r := handleGenerate Math_sin Math_cos measureText cfg host script p in
  snd r = None /\
  calls (fst r) = calls p /\
  recorderRef (fst r) = recorderRef p /\
  rafRef (fst r) = rafRef p /\
  canvasContext (fst r) = canvasContext p /\
  isRendering (fst r) = isRendering p /\
  (isClient host = true -> hasMediaRecorder host = true ->
   canvasMounted host = true -> renderError (fst r) = Some NoScenes).
Proof.
  unfold handleGenerate, startRender. rewrite Hnone. cbn [List.length Nat.eqb].
  destruct (isClient host), (hasMediaRecorder host), (canvasMounted host);
    cbn; repeat split; intros; congruence.
Qed.

Lemma generate_without_scenes_witness :
  let r := handleGenerate sinAtZero cosAtZero fixedPitch defaultStyle
                          capableHost (String LF "  ") mountedPage in
  snd r = None /\
  calls (fst r) = calls mountedPage /\
  recorderRef (fst r) = recorderRef mountedPage /\
  rafRef (fst r) = rafRef mountedPage /\
  canvasContext (fst r) = canvasContext mountedPage /\
  isRendering (fst r) = isRendering mountedPage /\
  (isClient capableHost = true -> hasMediaRecorder capableHost = true ->
   canvasMounted capableHost = true -> renderError (fst r) = Some NoScenes).
Proof.
  apply (generate_without_scenes sinAtZero cosAtZero fixedPitch defaultStyle
           capableHost (String LF "  ") mountedPage).
  reflexivity.
Defined.

(** ** Paint state around the elements of a frame *)

Lemma bracketed_bind {A : Type} (m : Draw A) (k : A -> Draw unit) (ctx : Context) :
  (forall a, bracketed (k a)) ->
  paintState (exec (bind m k) ctx) = paintState (exec m ctx) /\
  saved (exec (bind m k) ctx) = saved (exec m ctx).
Proof. intros Hk. rewrite exec_bind. apply Hk. Qed.

Lemma bracketed_seq (m : Draw unit) (k : unit -> Draw unit) :
  bracketed m -> (forall a, bracketed (k a)) -> bracketed (bind m k).
Proof.
  intros Hm Hk ctx. rewrite exec_bind.
  destruct (Hk (fst (m ctx)) (snd (m ctx))) as [A B].
  destruct (Hm ctx) as [C D]. unfold exec in *.
  rewrite A, B. now split.
Qed.

Section PainterFacts.

Variables Math_sin Math_cos : Angle -> Q.
Variable measureText : string -> string -> Q.
Variable cfg : StyleConfig.

(** Painting text changes nothing but the bitmap, and every call is
    issued under the paint state in force. *)
Lemma drawLines_effect (lines : list string) (cx lineHeight : Q) :
  forall (y : Q) (ctx : Context),
  exists ops,
    drawLines lines cx y lineHeight ctx =
      (tt, mkContext (paintState ctx) (saved ctx) (currentPath ctx)
                     (painted ctx ++ ops)) /\
    Forall (fun op => stateOf op = paintState ctx) ops.
Proof.
  induction lines as [|line rest IH]; intros y ctx.
  - exists []. split; [|constructor].
    destruct ctx. cbn. now rewrite app_nil_r.
  - cbn [drawLines]. unfold bind, Ctx.fillText, emit.
    destruct (IH (y + lineHeight)
                 (mkContext (paintState ctx) (saved ctx) (currentPath ctx)
                    (painted ctx ++ [FillText line cx y (paintState ctx)])))
      as [ops [E F]].
    exists (FillText line cx y (paintState ctx) :: ops).
    rewrite E. cbn [paintState saved currentPath painted] in *.
    split; [now rewrite <- app_assoc | now constructor].
Qed.

Lemma wrapText_effect (text : string) (cx cy maxWidth : Q) (ctx : Context) :
  exists ops,
    wrapText measureText text cx cy maxWidth ctx =
      (tt, mkContext (paintState ctx) (saved ctx) (currentPath ctx)
                     (painted ctx ++ ops)) /\
    Forall (fun op => stateOf op = paintState ctx) ops.
Proof. unfold wrapText, bind, getState. apply drawLines_effect. Qed.

Ltac run_wrapText ops E F :=
  match goal with
  | |- context [wrapText ?m ?t ?x ?y ?w ?c] =>
      destruct (wrapText_effect t x y w c) as [ops [E F]]; rewrite E
  end.

Lemma drawScene_effect (scene : Scene) (opacity motionOffset : Q) (ctx : Context) :
  exists ops,
    drawScene measureText cfg scene opacity motionOffset ctx =
      (tt, mkContext (paintState ctx) (saved ctx) (currentPath ctx)
                     (painted ctx ++ ops)) /\
    Forall (fun op => globalAlpha (stateOf op) = opacity /\
                      In (fillStyle (stateOf op))
                         [Css (primaryColor cfg); Css (accentColor cfg)]) ops.
Proof.
  unfold drawScene, bind. cbn -[wrapText].
  run_wrapText ops1 E1 F1. cbn -[wrapText] in *.
  assert (G1 : Forall (fun op => globalAlpha (stateOf op) = opacity /\
                                 In (fillStyle (stateOf op))
                                    [Css (primaryColor cfg); Css (accentColor cfg)]) ops1).
  { eapply Forall_impl; [|exact F1]. intros op ->. cbn. auto. }
  destruct (body scene) as [b|]; [destruct (Js.truthy b)|]; cbn -[wrapText].
  - run_wrapText ops2 E2 F2. cbn -[wrapText] in *.
    exists (ops1 ++ ops2). split; [now rewrite app_assoc|].
    apply Forall_app. split; [assumption|].
    eapply Forall_impl; [|exact F2]. intros op ->. cbn. auto.
  - exists ops1. now split.
  - exists ops1. now split.
Qed.

Lemma drawTrack_effect (ctx : Context) :
  exists op,
    drawTrack ctx =
      (tt, mkContext (paintState ctx) (saved ctx) (currentPath ctx)
                     (painted ctx ++ [op])) /\
    globalAlpha (stateOf op) = 35 # 100 /\
    fillStyle (stateOf op) = Css "#0f172a".
Proof. eexists. split; [reflexivity|]. split; reflexivity. Qed.

Lemma drawFill_effect (current total : Z) (ctx : Context) :
  exists op,
    drawFill cfg current total ctx =
      (tt, mkContext (paintState ctx) (saved ctx) (currentPath ctx)
                     (painted ctx ++ [op])) /\
    globalAlpha (stateOf op) = 85 # 100 /\
    fillStyle (stateOf op) = Css (accentColor cfg).
Proof. eexists. split; [reflexivity|]. split; reflexivity. Qed.

Lemma drawCaption_effect (index : Z) (scene : Scene) (ctx : Context) :
  exists op,
    drawCaption cfg index scene ctx =
      (tt, mkContext (paintState ctx) (saved ctx) (currentPath ctx)
                     (painted ctx ++ [op])) /\
    globalAlpha (stateOf op) = 6 # 10 /\
    fillStyle (stateOf op) = Css (primaryColor cfg).
Proof. eexists. split; [reflexivity|]. split; reflexivity. Qed.

(** The background assigns [fillStyle] six times and never saves: the
    opacity and the stack are untouched, and the fill style is left at
    the gradient of the last blob. *)
Lemma drawBackground_effect (progress : Q) (ctx : Context) :
  let after := exec (drawBackground Math_sin Math_cos cfg progress) ctx in
  paintState after =
    mkPaintState (globalAlpha (paintState ctx))
                 (gradientBlob Math_sin cfg progress 4)
                 (font (paintState ctx)) (textAlign (paintState ctx))
                 (textBaseline (paintState ctx)) /\
  saved after = saved ctx.
Proof. split; reflexivity. Qed.

Lemma drawScene_bracketed (scene : Scene) (opacity motionOffset : Q) :
  bracketed (drawScene measureText cfg scene opacity motionOffset).
Proof.
  intros ctx. unfold exec.
  destruct (drawScene_effect scene opacity motionOffset ctx) as [ops [E _]].
  rewrite E. now split.
Qed.

Lemma drawTrack_bracketed : bracketed drawTrack.
Proof. intros ctx. now split. Qed.

Lemma drawFill_bracketed (current total : Z) : bracketed (drawFill cfg current total).
Proof. intros ctx. now split. Qed.

Lemma drawCaption_bracketed (index : Z) (scene : Scene) :
  bracketed (drawCaption cfg index scene).
Proof. intros ctx. now split. Qed.

Lemma drawScene_paintsUnder (scene : Scene) (opacity motionOffset : Q) :
  paintsUnder opacity [Css (primaryColor cfg); Css (accentColor cfg)]
              (drawScene measureText cfg scene opacity motionOffset).
Proof.
  intros ctx. unfold exec.
  destruct (drawScene_effect scene opacity motionOffset ctx) as [ops [E F]].
  exists ops. rewrite E. now split.
Qed.

(** After a whole frame the paint state is the one the background left:
    everything painted on top of it is bracketed. *)
Lemma paintFrame_state (s : Session) (ctx : Context) :
  let progress := Timeline.overallProgress (currentFrame s) (totalFrames s) in
  paintState (exec (paintFrame Math_sin Math_cos measureText cfg s) ctx) =
    paintState (exec (drawBackground Math_sin Math_cos cfg progress) ctx) /\
  saved (exec (paintFrame Math_sin Math_cos measureText cfg s) ctx) = saved ctx.
Proof.
  cbv zeta. unfold paintFrame.
  match goal with
  | |- context [bind (drawBackground ?a ?b ?c ?p) ?k] =>
      destruct (bracketed_bind (drawBackground a b c p) k ctx) as [Hs Hk]
  end.
  - intros _.
    apply bracketed_seq; [apply drawScene_bracketed | intros _].
    apply bracketed_seq; [apply drawTrack_bracketed | intros _].
    apply bracketed_seq; [apply drawFill_bracketed | intros _].
    apply drawCaption_bracketed.
  - rewrite Hs, Hk. split; reflexivity.
Qed.

(** The first thing a frame does is to assign [fillStyle]: the fill style
    it finds, such as the gradient left by the frame before, plays no
    part in what it paints. *)
Lemma paintFrame_ignores_fillStyle (s : Session) (ctx : Context) (leftover : Style) :
  exec (paintFrame Math_sin Math_cos measureText cfg s)
       (exec (Ctx.set_fillStyle leftover) ctx) =
  exec (paintFrame Math_sin Math_cos measureText cfg s) ctx.
Proof.
  assert (E : forall progress,
             drawBackground Math_sin Math_cos cfg progress
                            (exec (Ctx.set_fillStyle leftover) ctx) =
             drawBackground Math_sin Math_cos cfg progress ctx).
  { intros progress. unfold drawBackground. cbv zeta.
    rewrite !(bind_run (Ctx.set_fillStyle _)).
    now rewrite set_fillStyle_twice. }
  set (found := exec (Ctx.set_fillStyle leftover) ctx) in *. clearbody found.
  unfold paintFrame. cbv zeta. rewrite (bind_run_exec _ _ found), (bind_run_exec _ _ ctx).
  now rewrite E.
Qed.

(** With an empty title, everything [drawScene] paints is body text. *)
Lemma drawScene_empty_title (b : option string) (opacity motionOffset : Q)
      (ctx : Context) :
  exists ops,
    painted (exec (drawScene measureText cfg (mkScene EmptyString b)
                             opacity motionOffset) ctx) = painted ctx ++ ops /\
    Forall (fun op => font (stateOf op) = "500 42px 'Inter', 'Segoe UI', sans-serif"
                      /\ fillStyle (stateOf op) = Css (accentColor cfg)) ops.
Proof.
  unfold drawScene, exec, bind. cbn -[wrapText].
  rewrite wrapText_empty.
  destruct b as [b|]; [destruct (Js.truthy b)|]; cbn -[wrapText].
  - run_wrapText ops E F. cbn -[wrapText] in *.
    exists ops. split; [reflexivity|].
    eapply Forall_impl; [|exact F]. intros op ->. now split.
  - exists []. split; [now rewrite app_nil_r | constructor].
  - exists []. split; [now rewrite app_nil_r | constructor].
Qed.

End PainterFacts.

Lemma paintsUnder_one (alpha : Q) (fill : Style) (m : Draw unit) :
  (forall ctx, exists op,
      m ctx = (tt, mkContext (paintState ctx) (saved ctx) (currentPath ctx)
                             (painted ctx ++ [op])) /\
      globalAlpha (stateOf op) = alpha /\ fillStyle (stateOf op) = fill) ->
  paintsUnder alpha [fill] m.
Proof.
  intros H ctx. destruct (H ctx) as [op (E & Ha & Hf)].
  exists [op]. unfold exec. rewrite E. split; [reflexivity|].
  constructor; [|constructor]. split; [assumption|]. left. now symmetry.
Qed.

(** The scene index computed by the timeline step is a valid index into
    a non-empty scene list. *)
Lemma sceneIndex_in_range (sceneCount : nat) (perScene currentFrame : Z) :
  (1 <= sceneCount)%nat -> (1 <= perScene)%Z -> (0 <= currentFrame)%Z ->
  (0 <= Timeline.sceneIndex sceneCount perScene currentFrame < Z.of_nat sceneCount)%Z.
Proof.
  intros Hn Hp Hc. unfold Timeline.sceneIndex. rewrite floor_div.
  pose proof (Z.div_pos currentFrame perScene Hc ltac:(lia)). lia.
Qed.

(** C8, as stated, fails for the background: [drawBackground] assigns
    [fillStyle] without [save] and [restore], so after it the fill style
    is the gradient of the last blob and not the style found before. *)
Lemma background_is_not_bracketed :
  fillStyle (paintState (exec (drawBackground sinAtZero cosAtZero defaultStyle 0)
                              freshContext))
    <> fillStyle (paintState freshContext) /\
  ~ bracketed (drawBackground sinAtZero cosAtZero defaultStyle 0).
Proof.
  assert (H : fillStyle (paintState (exec (drawBackground sinAtZero cosAtZero
                                             defaultStyle 0) freshContext))
              <> fillStyle (paintState freshContext)).
  { vm_compute. discriminate. }
  split; [exact H|].
  intros Hb. destruct (Hb freshContext) as [E _]. apply H. now rewrite E.
Qed.

(** C8, amended. In every frame the scene text, the progress-bar track,
    the progress-bar fill and the caption each save the paint state,
    change opacity and fill, paint, and restore: after each of them the
    whole paint state (globalAlpha and fill style included) and the stack
    of saved states are what they were before, and every painting call of
    the element is issued under the opacity and the fill the element
    itself assigned.  The background with its blobs does not save or
    restore: it leaves globalAlpha and the stack untouched but leaves the
    fill style at the gradient of the last blob.  After the whole frame
    globalAlpha and the stack are as before the frame. *)
Theorem frame_elements_bracketed
  (Math_sin Math_cos : Angle -> Q) (measureText : string -> string -> Q)
  (cfg : StyleConfig) (scene : Scene) (opacity motionOffset progress : Q)
  (current total index : Z) (s : Session) :
  (bracketed (drawScene measureText cfg scene opacity motionOffset) /\
   bracketed drawTrack /\
   bracketed (drawFill cfg current total) /\
   bracketed (drawCaption cfg index scene)) /\
  (paintsUnder opacity [Css (primaryColor cfg); Css (accentColor cfg)]
               (drawScene measureText cfg scene opacity motionOffset) /\
   paintsUnder (35 # 100) [Css "#0f172a"] drawTrack /\
   paintsUnder (85 # 100) [Css (accentColor cfg)] (drawFill cfg current total) /\
   paintsUnder (6 # 10) [Css (primaryColor cfg)] (drawCaption cfg index scene)) /\
  (forall ctx,
     let after := exec (drawBackground Math_sin Math_cos cfg progress) ctx in
     globalAlpha (paintState after) = globalAlpha (paintState ctx) /\
     saved after = saved ctx /\
     fillStyle (paintState after) = gradientBlob Math_sin cfg progress 4) /\
  (forall ctx,
     let after := exec (paintFrame Math_sin Math_cos measureText cfg s) ctx in
     globalAlpha (paintState after) = globalAlpha (paintState ctx) /\
     saved after = saved ctx) /\
  (forall ctx leftover,
     exec (paintFrame Math_sin Math_cos measureText cfg s)
          (exec (Ctx.set_fillStyle leftover) ctx) =
     exec (paintFrame Math_sin Math_cos measureText cfg s) ctx).
Proof.
  split; [|split; [|split; [|split]]].
  - split; [apply drawScene_bracketed|].
    split; [apply drawTrack_bracketed|].
    split; [apply drawFill_bracketed | apply drawCaption_bracketed].
  - split; [apply drawScene_paintsUnder|].
    split; [apply paintsUnder_one, drawTrack_effect|].
    split; [apply paintsUnder_one, drawFill_effect
           | apply paintsUnder_one, drawCaption_effect].
  - intros ctx after.
    destruct (drawBackground_effect Math_sin Math_cos cfg progress ctx) as [E1 E2].
    fold after in E1, E2. rewrite E1. now repeat split.
  - intros ctx after.
    destruct (paintFrame_state Math_sin Math_cos measureText cfg s ctx) as [E1 E2].
    fold after in E1, E2. rewrite E1. split; [|exact E2].
    now destruct (drawBackground_effect Math_sin Math_cos cfg
                    (Timeline.overallProgress (currentFrame s) (totalFrames s)) ctx)
      as [-> _].
  - intros ctx leftover. apply paintFrame_ignores_fillStyle.
Qed.

(** C9. For the empty string the wrap loop yields no line and [wrapText]
    leaves the context as it was: no text-painting call is made.  A scene
    whose title is empty therefore paints no title text: with no body it
    adds no painting call at all, and with a body every call it adds is
    body text, in the body font and the accent colour. *)
Theorem wrapText_empty_paints_nothing
  (measureText : string -> string -> Q) (cfg : StyleConfig)
  (cx cy maxWidth opacity motionOffset : Q) (ctx : Context) :
  wrapLines (measureText (font (paintState ctx))) maxWidth EmptyString = [] /\
  exec (wrapText measureText EmptyString cx cy maxWidth) ctx = ctx /\
  painted (exec (drawScene measureText cfg (mkScene EmptyString None)
                           opacity motionOffset) ctx) = painted ctx /\
  (forall b, exists ops,
     painted (exec (drawScene measureText cfg (mkScene EmptyString b)
                              opacity motionOffset) ctx) = painted ctx ++ ops /\
     Forall (fun op => font (stateOf op) = "500 42px 'Inter', 'Segoe UI', sans-serif"
                       /\ fillStyle (stateOf op) = Css (accentColor cfg)) ops).
Proof.
  split; [apply wrapLines_empty|]. split; [|split].
  - unfold exec. now rewrite wrapText_empty.
  - unfold drawScene, exec, bind. cbn -[wrapText].
    rewrite wrapText_empty. reflexivity.
  - intros b. apply drawScene_empty_title.
Qed.

(* ================================================================== *)
(** * Further properties of the page *)
(* ================================================================== *)

(** ** Trimming and blank lines *)

Lemma trimEnd_cons (c : ascii) (r : string) :
  Js.trimEnd (String c r) =
  if Js.isEmpty (Js.trimEnd r) && Js.isWhiteSpace c then EmptyString
  else String c (Js.trimEnd r).
Proof.
  cbn [Js.trimEnd]. destruct (Js.trimEnd r); cbn; [|reflexivity].
  now destruct (Js.isWhiteSpace c).
Qed.

Lemma trimStart_empty_iff (s : string) :
  Js.trimStart s = EmptyString <-> isBlank s = true.
Proof.
  induction s as [|c s IH]; cbn; [tauto|].
  destruct (Js.isWhiteSpace c); cbn; [exact IH|].
  split; discriminate.
Qed.

Lemma trimStart_head (s : string) :
  Js.trimStart s = EmptyString \/
  exists c r, Js.trimStart s = String c r /\ Js.isWhiteSpace c = false.
Proof.
  induction s as [|c s IH]; cbn; [now left|].
  destruct (Js.isWhiteSpace c) eqn:E; [exact IH|].
  right. now exists c, s.
Qed.

Lemma trimEnd_keeps_head (c : ascii) (r : string) :
  Js.isWhiteSpace c = false ->
  Js.trimEnd (String c r) = String c (Js.trimEnd r).
Proof. intros E. now rewrite trimEnd_cons, E, andb_false_r. Qed.

Lemma trim_empty_iff (s : string) : Js.trim s = EmptyString <-> isBlank s = true.
Proof.
  unfold Js.trim. rewrite <- trimStart_empty_iff.
  destruct (trimStart_head s) as [E | (c & r & E & Hc)]; rewrite E.
  - cbn. tauto.
  - rewrite (trimEnd_keeps_head c r Hc). split; discriminate.
Qed.

Lemma truthy_trim (s : string) : Js.truthy (Js.trim s) = negb (isBlank s).
Proof.
  unfold Js.truthy. destruct (isBlank s) eqn:E.
  - apply trim_empty_iff in E. now rewrite E.
  - destruct (Js.trim s) eqn:Et; [|reflexivity].
    apply trim_empty_iff in Et. congruence.
Qed.

Lemma trimEnd_idempotent (s : string) : Js.trimEnd (Js.trimEnd s) = Js.trimEnd s.
Proof.
  induction s as [|c s IH]; [reflexivity|].
  rewrite trimEnd_cons.
  destruct (Js.isEmpty (Js.trimEnd s) && Js.isWhiteSpace c) eqn:E; [reflexivity|].
  now rewrite trimEnd_cons, IH, E.
Qed.

Lemma trimStart_trimEnd (c : ascii) (r : string) :
  Js.isWhiteSpace c = false ->
  Js.trimStart (Js.trimEnd (String c r)) = Js.trimEnd (String c r).
Proof. intros E. rewrite (trimEnd_keeps_head c r E). cbn. now rewrite E. Qed.

(** Trimming twice is trimming once. *)
Lemma trim_idempotent (s : string) : Js.trim (Js.trim s) = Js.trim s.
Proof.
  unfold Js.trim.
  destruct (trimStart_head s) as [E | (c & r & E & Hc)]; rewrite E.
  - reflexivity.
  - rewrite (trimStart_trimEnd c r Hc). apply trimEnd_idempotent.
Qed.

Lemma includes_trimStart (c : ascii) (s : string) :
  Js.includes c (Js.trimStart s) = true -> Js.includes c s = true.
Proof.
  induction s as [|d s IH]; cbn; [discriminate|].
  destruct (Js.isWhiteSpace d); cbn; [|tauto].
  intros H. rewrite (IH H). apply orb_true_r.
Qed.

Lemma includes_trimEnd (c : ascii) (s : string) :
  Js.includes c (Js.trimEnd s) = true -> Js.includes c s = true.
Proof.
  induction s as [|d s IH]; [discriminate|].
  rewrite trimEnd_cons.
  destruct (Js.isEmpty (Js.trimEnd s) && Js.isWhiteSpace d); [discriminate|].
  cbn. destruct (Ascii.eqb d c); cbn; [reflexivity | exact IH].
Qed.

Lemma includes_trim (c : ascii) (s : string) :
  Js.includes c s = false -> Js.includes c (Js.trim s) = false.
Proof.
  intros H. destruct (Js.includes c (Js.trim s)) eqn:E; [|reflexivity].
  unfold Js.trim in E. apply includes_trimEnd, includes_trimStart in E. congruence.
Qed.

(** A code unit absent from a string is absent from all its segments. *)
Lemma split_segments_exclude (sep c : ascii) (s : string) :
  Js.includes c s = false ->
  Forall (fun w => Js.includes c w = false) (Js.split sep s).
Proof.
  induction s as [|d s IH]; cbn.
  - intros _. constructor; [reflexivity | constructor].
  - intros H. apply orb_false_iff in H. destruct H as [Hd Hs].
    specialize (IH Hs).
    destruct (Ascii.eqb d sep).
    + constructor; [reflexivity | exact IH].
    + destruct (Js.split sep s) as [|w ws].
      * constructor; [cbn; now rewrite Hd | constructor].
      * inversion IH; subst. constructor; [cbn|assumption].
        rewrite Hd. assumption.
Qed.

Lemma isBlank_split_lines (s : string) :
  isBlank s = forallb isBlank (Js.split LF s).
Proof.
  induction s as [|c s IH]; [reflexivity|].
  cbn [Js.split isBlank].
  destruct (Ascii.eqb c LF) eqn:E.
  - apply Ascii.eqb_eq in E. subst c. cbn. exact IH.
  - rewrite IH. destruct (Js.split LF s) as [|w ws] eqn:Es;
      [now apply split_not_nil in Es|].
    cbn. now rewrite andb_assoc.
Qed.

Lemma filter_truthy_trim (ls : list string) :
  filter Js.truthy (map Js.trim ls) =
  map Js.trim (filter (fun l => negb (isBlank l)) ls).
Proof.
  induction ls as [|l ls IH]; [reflexivity|].
  cbn. rewrite truthy_trim. destruct (isBlank l); cbn; now rewrite IH.
Qed.

Lemma filter_nonblank_nil (ls : list string) :
  filter (fun l => negb (isBlank l)) ls = [] <-> forallb isBlank ls = true.
Proof.
  induction ls as [|l ls IH]; cbn; [tauto|].
  destruct (isBlank l); cbn; [exact IH|]. split; discriminate.
Qed.

(** X1. The parser yields one scene for each line of the script that is
    not blank, and no scene at all exactly when the script is white space
    from end to end. *)
Theorem scenes_count_and_blank_script (script : string) :
  List.length (scenes script) =
    List.length (filter (fun l => negb (isBlank l)) (Js.split LF script)) /\
  (scenes script = [] <-> isBlank script = true).
Proof.
  unfold scenes, scriptLines. rewrite filter_truthy_trim. split.
  - now rewrite !length_map.
  - rewrite isBlank_split_lines, <- filter_nonblank_nil.
    split.
    + intros H. now apply map_eq_nil, map_eq_nil in H.
    + intros H. now rewrite H.
Qed.

Lemma cleanField_segment (seg : string) :
  Js.includes BAR seg = false -> Js.includes LF seg = false ->
  cleanField (Js.trim seg).
Proof.
  intros HB HL. split; [apply trim_idempotent|].
  split; now apply includes_trim.
Qed.

Lemma parseLine_clean (line : string) :
  Js.includes LF line = false ->
  cleanField (title (parseLine line)) /\
  (forall b, body (parseLine line) = Some b -> cleanField b).
Proof.
  intros HL. unfold parseLine.
  pose proof (split_segments_sep_free BAR line) as HB.
  pose proof (split_segments_exclude BAR LF line HL) as HN.
  destruct (Js.split BAR line) as [|t [|b rest]] eqn:E.
  - now apply split_not_nil in E.
  - inversion HB; inversion HN; subst. cbn. split.
    + now apply cleanField_segment.
    + discriminate.
  - inversion HB as [|? ? HB1 HB2]; inversion HN as [|? ? HN1 HN2]; subst.
    inversion HB2; inversion HN2; subst. cbn. split.
    + now apply cleanField_segment.
    + intros b' Eb. injection Eb as <-. now apply cleanField_segment.
Qed.

(** X2. Every title, and every body that is defined, comes out of the
    parser trimmed (trimming it again changes nothing) and contains
    neither the delimiter nor a line break. *)
Theorem scenes_fields_clean (script : string) :
  Forall (fun sc => cleanField (title sc) /\
                    (forall b, body sc = Some b -> cleanField b))
         (scenes script).
Proof.
  unfold scenes, scriptLines.
  apply Forall_map. apply Forall_forall. intros line Hin.
  apply filter_In in Hin. destruct Hin as [Hin _].
  apply in_map_iff in Hin. destruct Hin as (raw & <- & Hraw).
  apply parseLine_clean. apply includes_trim.
  pose proof (split_segments_sep_free LF script) as H.
  rewrite Forall_forall in H. now apply H.
Qed.

(** ** More on the word wrap *)

Section WrapInvariant.

Variable measure : string -> Q.
Variable maxWidth : Q.
Variable P : string -> Prop.

Hypothesis P_word :
  forall w, w <> EmptyString -> Js.includes SPACE w = false -> P w.
Hypothesis P_extend :
  forall cur w,
    cur <> EmptyString -> P cur -> Js.includes SPACE w = false ->
    tooWide measure maxWidth (cur ++ " " ++ w)%string = false ->
    P (cur ++ " " ++ w)%string.

(** A property of single words that survives every accepted extension
    holds of every line. *)
Lemma wrapLoop_invariant (words : list string) :
  Forall (fun w => Js.includes SPACE w = false) words ->
  forall (lines : list string) (cur : string),
    Forall P lines ->
    cur = EmptyString \/ P cur ->
    Forall P (fst (wrapLoop measure maxWidth words (lines, cur))) /\
    (snd (wrapLoop measure maxWidth words (lines, cur)) = EmptyString \/
     P (snd (wrapLoop measure maxWidth words (lines, cur)))).
Proof.
  induction 1 as [|w ws Hw _ IH]; intros lines cur Hl Hc.
  - cbn. now split.
  - unfold wrapLoop. cbn [fold_left]. fold (wrapLoop measure maxWidth ws).
    assert (Hword : w = EmptyString \/ P w).
    { destruct w as [|c w'] eqn:Ew; [now left | right].
      apply P_word; [discriminate | assumption]. }
    destruct cur as [|c cur'] eqn:Ecur.
    + rewrite wrapStep_fresh. now apply IH.
    + assert (Hne : String c cur' <> EmptyString) by discriminate.
      destruct Hc as [Hc | Hc]; [discriminate|].
      destruct (tooWide measure maxWidth (String c cur' ++ " " ++ w)%string) eqn:E.
      * rewrite (wrapStep_commit measure maxWidth lines _ w Hne E).
        apply IH; [|assumption].
        apply Forall_app. split; [assumption | now constructor].
      * rewrite (wrapStep_extend measure maxWidth lines _ w Hne E).
        apply IH; [assumption|]. right. now apply P_extend.
Qed.

Lemma wrapLines_invariant (text : string) :
  Forall P (wrapLines measure maxWidth text).
Proof.
  pose proof (wrapLoop_invariant _ (split_segments_sep_free SPACE text)
                [] EmptyString (Forall_nil _) (or_introl eq_refl)) as [Hl Hc].
  unfold wrapLines.
  destruct (wrapLoop measure maxWidth (Js.split SPACE text) ([], EmptyString))
    as [l' c'].
  cbn [fst snd] in *.
  destruct (Js.isEmpty c') eqn:E; cbn [negb]; [assumption|].
  apply Forall_app. split; [assumption|].
  constructor; [|constructor].
  destruct Hc as [-> | Hc]; [discriminate E | assumption].
Qed.

End WrapInvariant.

Lemma tooWide_false_iff (measure : string -> Q) (maxWidth : Q) (s : string) :
  tooWide measure maxWidth s = false <-> measure s <= maxWidth.
Proof.
  unfold tooWide. rewrite negb_false_iff. apply Qle_bool_iff.
Qed.

Lemma tooWide_true_iff (measure : string -> Q) (maxWidth : Q) (s : string) :
  tooWide measure maxWidth s = true <-> maxWidth < measure s.
Proof.
  unfold tooWide. rewrite negb_true_iff. split.
  - intros E. apply Qnot_le_lt. intros H. apply Qle_bool_iff in H. congruence.
  - intros H. destruct (Qle_bool (measure s) maxWidth) eqn:E; [|reflexivity].
    apply Qle_bool_iff in E. exfalso. now apply (Qlt_not_le _ _ H).
Qed.

(** X3. Whatever the text, the width and the measurement function, no
    wrapped line is empty, none starts with a space, and a line is wider
    than the maximum width only when it is a single word. *)
Theorem wrap_lines_fit (measure : string -> Q) (maxWidth : Q) (text : string) :
  Forall (wellWrapped measure maxWidth) (wrapLines measure maxWidth text).
Proof.
  apply wrapLines_invariant.
  - intros w Hne Hs. split; [assumption|]. split; [|now left].
    destruct w as [|c w]; [reflexivity|]. cbn in *.
    now apply orb_false_iff in Hs.
  - intros cur w Hne (_ & Hstart & _) _ Hfit.
    split; [destruct cur; [congruence | discriminate]|].
    split; [destruct cur; [congruence | exact Hstart]|].
    right. now apply tooWide_false_iff.
Qed.

Lemma finishWrap_wrapLines (measure : string -> Q) (maxWidth : Q) (text : string) :
  wrapLines measure maxWidth text =
  finishWrap (wrapLoop measure maxWidth (Js.split SPACE text) ([], EmptyString)).
Proof.
  unfold wrapLines, finishWrap.
  now destruct (wrapLoop measure maxWidth (Js.split SPACE text) ([], EmptyString)).
Qed.

Lemma filter_head {A : Type} (f : A -> bool) (x : A) (xs : list A) :
  filter f (x :: xs) = filter f [x] ++ filter f xs.
Proof. cbn. now destruct (f x). Qed.

(** One word adds at most one line, and a line already begun is never
    lost. *)
Lemma wrapStep_count (measure : string -> Q) (maxWidth : Q)
      (st : list string * string) (w : string) :
  let before := List.length (finishWrap st) in
  let after := List.length (finishWrap (wrapStep measure maxWidth st w)) in
  (before <= after)%nat /\
  (after <= before + List.length (filter Js.truthy [w]))%nat /\
  (List.length (filter Js.truthy [w]) <= after)%nat.
Proof.
  destruct st as [lines cur]. cbv zeta.
  destruct cur as [|c cur'].
  - rewrite wrapStep_fresh. unfold finishWrap. cbn [fst snd filter].
    destruct w; cbn; rewrite ?length_app; cbn; lia.
  - assert (Hne : String c cur' <> EmptyString) by discriminate.
    destruct (tooWide measure maxWidth (String c cur' ++ " " ++ w)%string) eqn:E.
    + rewrite (wrapStep_commit measure maxWidth lines _ w Hne E).
      unfold finishWrap. cbn [fst snd filter].
      destruct w; cbn; rewrite ?length_app; cbn; lia.
    + rewrite (wrapStep_extend measure maxWidth lines _ w Hne E).
      unfold finishWrap. cbn [fst snd filter].
      destruct w; cbn; rewrite ?length_app; cbn; lia.
Qed.

Lemma wrapLoop_count (measure : string -> Q) (maxWidth : Q) (words : list string) :
  forall st : list string * string,
    let before := List.length (finishWrap st) in
    let after := List.length (finishWrap (wrapLoop measure maxWidth words st)) in
    (before <= after)%nat /\
    (after <= before + List.length (filter Js.truthy words))%nat /\
    (filter Js.truthy words <> [] -> 1 <= after)%nat.
Proof.
  induction words as [|w ws IH]; intros st; cbv zeta.
  - cbn. repeat split; try lia. congruence.
  - unfold wrapLoop in *. cbn [fold_left].
    destruct (wrapStep_count measure maxWidth st w) as (H1 & H2 & H3).
    destruct (IH (wrapStep measure maxWidth st w)) as (I1 & I2 & I3).
    cbv zeta in *.
    rewrite (filter_head Js.truthy w ws).
    rewrite length_app.
    repeat split; try lia.
    intros Hne. destruct (filter Js.truthy [w]) eqn:Ew.
    + apply I3. exact Hne.
    + cbn in H3. lia.
Qed.

(** X4. The wrap never yields more lines than the text has non-empty
    words, and it yields no line at all exactly when the text has no
    non-empty word (it is empty or made of spaces only). *)
Theorem wrap_line_count (measure : string -> Q) (maxWidth : Q) (text : string) :
  (List.length (wrapLines measure maxWidth text) <=
   List.length (filter Js.truthy (Js.split SPACE text)))%nat /\
  (wrapLines measure maxWidth text = [] <->
   filter Js.truthy (Js.split SPACE text) = []).
Proof.
  rewrite finishWrap_wrapLines.
  destruct (wrapLoop_count measure maxWidth (Js.split SPACE text) ([], EmptyString))
    as (_ & Hup & Hlow).
  cbv zeta in *. cbn [finishWrap fst snd Js.isEmpty String.length Nat.eqb negb
                      List.length Nat.add] in Hup.
  split; [exact Hup|]. split.
  - intros E. rewrite E in Hlow. cbn in Hlow.
    destruct (filter Js.truthy (Js.split SPACE text)); [reflexivity|].
    assert (1 <= 0)%nat by (apply Hlow; discriminate). lia.
  - intros E. rewrite E in Hup. cbn in Hup.
    destruct (finishWrap _); [reflexivity | cbn in Hup; lia].
Qed.

Lemma includes_space_joined (cur w : string) :
  Js.includes SPACE (cur ++ " " ++ w)%string = true.
Proof.
  induction cur as [|c cur IH]; [reflexivity|].
  change (Ascii.eqb c SPACE || Js.includes SPACE (cur ++ " " ++ w)%string = true).
  rewrite IH. apply orb_true_r.
Qed.

Lemma wrapLoop_all_fit (measure : string -> Q) (maxWidth : Q) (words : list string) :
  (forall s, measure s <= maxWidth) ->
  forall (lines : list string) (cur : string),
    cur <> EmptyString ->
    wrapLoop measure maxWidth words (lines, cur) =
    (lines, String.concat " " (cur :: words)).
Proof.
  intros Hfit. induction words as [|w ws IH]; intros lines cur Hne.
  - reflexivity.
  - unfold wrapLoop in *. cbn [fold_left].
    rewrite (wrapStep_extend measure maxWidth lines cur w Hne)
      by (apply tooWide_false_iff, Hfit).
    rewrite IH by (destruct cur; [congruence | discriminate]).
    f_equal. symmetry. apply (concat_merge " " [] ws cur w).
Qed.

Lemma wrapLoop_none_fit (measure : string -> Q) (maxWidth : Q) (words : list string) :
  (forall s, Js.includes SPACE s = true -> maxWidth < measure s) ->
  forall st : list string * string,
    finishWrap (wrapLoop measure maxWidth words st) =
    finishWrap st ++ filter Js.truthy words.
Proof.
  intros Hwide. induction words as [|w ws IH]; intros [lines cur].
  - cbn. now rewrite app_nil_r.
  - unfold wrapLoop in *. cbn [fold_left].
    rewrite IH.
    rewrite (filter_head Js.truthy w ws).
    rewrite app_assoc. f_equal.
    destruct cur as [|c cur'].
    + rewrite wrapStep_fresh. unfold finishWrap. cbn [fst snd filter].
      destruct w; cbn; now rewrite ?app_nil_r.
    + rewrite (wrapStep_commit measure maxWidth lines (String c cur') w)
        by (try discriminate; apply tooWide_true_iff, Hwide, includes_space_joined).
      unfold finishWrap. cbn [fst snd filter].
      destruct w; cbn; now rewrite ?app_nil_r.
Qed.

(** X5. When every string fits the maximum width, a text without empty
    words stays on one line, the text itself. *)
Theorem wrap_everything_fits
  (measure : string -> Q) (maxWidth : Q) (text : string)
  (Hfit : forall s, measure s <= maxWidth)
  (Hwords : Forall (fun w => w <> EmptyString) (Js.split SPACE text)) :
  wrapLines measure maxWidth text = [text].
Proof.
  pose proof (join_split SPACE text) as Hj. unfold Js.join in Hj.
  rewrite finishWrap_wrapLines.
  destruct (Js.split SPACE text) as [|w ws] eqn:Es; [now apply split_not_nil in Es|].
  apply Forall_cons_iff in Hwords. destruct Hwords as [Hw _].
  change (wrapLoop measure maxWidth (w :: ws) ([], EmptyString))
    with (wrapLoop measure maxWidth ws
            (wrapStep measure maxWidth ([], EmptyString) w)).
  rewrite wrapStep_fresh, (wrapLoop_all_fit measure maxWidth ws Hfit [] w Hw).
  change (String SPACE "") with " " in Hj. rewrite Hj.
  unfold finishWrap. cbn [fst snd].
  destruct text; [|reflexivity].
  cbn in Es. injection Es as <- _. congruence.
Qed.

Lemma wrap_everything_fits_witness :
  wrapLines (fun _ => 0) 100 "one two three" = ["one two three"].
Proof.
  apply (wrap_everything_fits (fun _ => 0) 100 "one two three").
  - intros s. discriminate.
  - cbn [Js.split SPACE Ascii.eqb Bool.eqb andb].
    repeat (apply Forall_cons; [discriminate|]). apply Forall_nil.
Defined.

(** X6. When every string that contains a space is wider than the
    maximum width, each non-empty word of the text is a line of its own,
    in the order of the text. *)
Theorem wrap_one_word_per_line
  (measure : string -> Q) (maxWidth : Q) (text : string)
  (Hwide : forall s, Js.includes SPACE s = true -> maxWidth < measure s) :
  wrapLines measure maxWidth text = filter Js.truthy (Js.split SPACE text).
Proof.
  rewrite finishWrap_wrapLines.
  now rewrite (wrapLoop_none_fit measure maxWidth _ Hwide).
Qed.

Lemma wrap_one_word_per_line_witness :
  wrapLines (fun _ => 1) 0 "one  two three " = ["one"; "two"; "three"].
Proof.
  apply (wrap_one_word_per_line (fun _ => 1) 0 "one  two three ").
  intros s _. reflexivity.
Defined.

(** ** Vertical layout of wrapped text *)

Lemma drawLines_paints (lines : list string) (cx lineHeight : Q) :
  forall (y : Q) (ctx : Context),
    drawLines lines cx y lineHeight ctx =
    (tt, mkContext (paintState ctx) (saved ctx) (currentPath ctx)
                   (painted ctx ++ linePaints lines cx y lineHeight (paintState ctx))).
Proof.
  induction lines as [|line rest IH]; intros y ctx.
  - destruct ctx. cbn. now rewrite app_nil_r.
  - cbn [drawLines linePaints]. unfold bind, Ctx.fillText, emit.
    rewrite IH. cbn [paintState saved currentPath painted].
    now rewrite <- app_assoc.
Qed.

Lemma linePaints_length (lines : list string) (cx lineHeight : Q) (st : PaintState) :
  forall y, List.length (linePaints lines cx y lineHeight st) = List.length lines.
Proof. induction lines as [|l r IH]; intros y; cbn; [reflexivity | now rewrite IH]. Qed.

Lemma linePaints_nth (lines : list string) (cx lineHeight : Q) (st : PaintState) :
  forall (y : Q) (i : nat) (line : string),
    nth_error lines i = Some line ->
    exists yi,
      nth_error (linePaints lines cx y lineHeight st) i = Some (FillText line cx yi st) /\
      yi == y + inject_Z (Z.of_nat i) * lineHeight.
Proof.
  induction lines as [|l r IH]; intros y i line Hnth.
  - destruct i; discriminate.
  - destruct i as [|i].
    + injection Hnth as <-. exists y. split; [reflexivity|].
      cbn. ring.
    + cbn [nth_error] in Hnth.
      destruct (IH (y + lineHeight) i line Hnth) as [yi [E Hy]].
      exists yi. split; [exact E|].
      rewrite Hy, Nat2Z.inj_succ. unfold Z.succ. rewrite inject_Z_plus. ring.
Qed.

(** X7. [wrapText] paints one text call per wrapped line, at centerX,
    under the paint state in force, and changes nothing else.  Line i of
    n is painted at centerY + (2 i + 1 - n) * lineHeight / 2, so the lines
    are one line height apart and the block is centred on centerY (the
    baselines of line i and of line n - 1 - i are symmetric about it). *)
Theorem wrapText_layout
  (measureText : string -> string -> Q) (text : string) (cx cy maxWidth : Q)
  (ctx : Context) (i : nat) (line : string) :
  let st := paintState ctx in
  let lines := wrapLines (measureText (font st)) maxWidth text in
  let lineHeight := lineHeightOf (font st) in
  let after := exec (wrapText measureText text cx cy maxWidth) ctx in
  nth_error lines i = Some line ->
  exists ops y,
    painted after = painted ctx ++ ops /\
    paintState after = st /\ saved after = saved ctx /\
    List.length ops = List.length lines /\
    nth_error ops i = Some (FillText line cx y st) /\
    y == cy + inject_Z (2 * Z.of_nat i + 1 - Z.of_nat (List.length lines))
              * lineHeight / 2.
Proof.
  intros st lines lineHeight after Hnth.
  unfold after, exec, wrapText, bind, getState.
  fold st. fold lines. fold (fontSizeOf (font st)).
  fold (lineHeightOf (font st)). fold lineHeight.
  rewrite drawLines_paints. cbn [snd paintState saved painted]. fold st.
  destruct (linePaints_nth lines cx lineHeight st
              (cy - lineHeight * inject_Z (Z.of_nat (List.length lines)) / 2
               + lineHeight / 2) i line Hnth) as [y [E Hy]].
  eexists. exists y.
  split; [reflexivity|]. split; [reflexivity|]. split; [reflexivity|].
  split; [apply linePaints_length|]. split; [exact E|].
  rewrite Hy. unfold Z.sub.
  rewrite !inject_Z_plus, inject_Z_mult, inject_Z_opp. field.
Qed.

Lemma wrapText_layout_witness :
  exists ops y,
    painted (exec (wrapText fixedPitch "ab cd" 640 280 100) freshContext) =
      painted freshContext ++ ops /\
    paintState (exec (wrapText fixedPitch "ab cd" 640 280 100) freshContext) =
      paintState freshContext /\
    saved (exec (wrapText fixedPitch "ab cd" 640 280 100) freshContext) =
      saved freshContext /\
    List.length ops = 2%nat /\
    nth_error ops 1 = Some (FillText "cd" 640 y (paintState freshContext)) /\
    y == 280 + inject_Z (2 * 1 + 1 - 2) * lineHeightOf "10px sans-serif" / 2.
Proof.
  apply (wrapText_layout fixedPitch "ab cd" 640 280 100 freshContext 1 "cd").
  reflexivity.
Defined.

(** ** More on the timeline arithmetic *)

Lemma Math_round_integer (x : Q) (n : Z) : x == inject_Z n -> Math_round x = n.
Proof.
  intros E. unfold Math_round.
  assert (E2 : x + (1 # 2) == (2 * n + 1) # 2).
  { rewrite E. unfold Qeq, Qplus, inject_Z. cbn [Qnum Qden Pos.mul]. lia. }
  rewrite (Qfloor_comp _ _ E2).
  change (((2 * n + 1) / 2)%Z = n).
  symmetry. apply (Z.div_unique_pos _ _ n 1); lia.
Qed.

Lemma Math_round_monotone (x y : Q) : x <= y -> (Math_round x <= Math_round y)%Z.
Proof.
  intros H. unfold Math_round. apply Qfloor_resp_le.
  apply Qplus_le_compat; [exact H | apply Qle_refl].
Qed.

(** X8. framesPerScene is at least 1 whatever the duration, and is 1 for
    a duration of 0 or less; when 30 times the duration is a whole number
    n >= 1 (every multiple of half a second, the step of the input) it is
    exactly n; and it never decreases when the duration grows.
    totalFrames is at least the number of scenes. *)
Theorem framesPerScene_facts (d : Q) :
  (1 <= Timeline.framesPerScene d)%Z /\
  (d <= 0 -> Timeline.framesPerScene d = 1%Z) /\
  (forall n, (1 <= n)%Z -> d * inject_Z FPS == inject_Z n ->
             Timeline.framesPerScene d = n) /\
  (forall d', d <= d' ->
              (Timeline.framesPerScene d <= Timeline.framesPerScene d')%Z) /\
  (forall count, (Z.of_nat count <= Timeline.totalFrames d count)%Z).
Proof.
  unfold Timeline.totalFrames, Timeline.framesPerScene.
  split; [lia|]. split; [|split; [|split]].
  - intros Hd.
    assert (H : (Math_round (d * inject_Z FPS) <= Math_round 0)%Z).
    { apply Math_round_monotone.
      setoid_replace 0 with (0 * inject_Z FPS) by ring.
      apply Qmult_le_compat_r; [exact Hd | discriminate]. }
    change (Math_round 0) with 0%Z in H. lia.
  - intros n Hn E. rewrite (Math_round_integer _ _ E). lia.
  - intros d' Hd.
    assert (H : (Math_round (d * inject_Z FPS) <= Math_round (d' * inject_Z FPS))%Z).
    { apply Math_round_monotone. apply Qmult_le_compat_r; [exact Hd | discriminate]. }
    lia.
  - intros count. nia.
Qed.

Lemma framesPerScene_facts_witness :
  Timeline.framesPerScene (5 # 2) = 75%Z /\
  (Timeline.framesPerScene (5 # 2) <= Timeline.framesPerScene 4)%Z.
Proof.
  split.
  - apply (proj1 (proj2 (proj2 (framesPerScene_facts (5 # 2)))) 75%Z);
      [lia | reflexivity].
  - apply (proj1 (proj2 (proj2 (proj2 (framesPerScene_facts (5 # 2))))) 4).
    discriminate.
Defined.

Lemma frameWithinScene_offset (perScene i w : Z) :
  (1 <= perScene)%Z -> (0 <= i)%Z -> (0 <= w < perScene)%Z ->
  Timeline.frameWithinScene perScene (i * perScene + w) = w /\
  ((i * perScene + w) / perScene = i)%Z.
Proof.
  intros Hp Hi Hw. unfold Timeline.frameWithinScene.
  rewrite Z.rem_mod_nonneg by nia.
  split.
  - rewrite Z.add_comm, Z.mod_add by lia. apply Z.mod_small. lia.
  - rewrite Z.add_comm, Z.div_add by lia. rewrite Z.div_small by lia. lia.
Qed.

(** X9. Scene i of a render owns the frames from i * framesPerScene up to
    (i + 1) * framesPerScene - 1: at frame i * framesPerScene + w the
    timeline step computes sceneIndex = i and frameWithinScene = w.  The
    one frame left, currentFrame = totalFrames, falls to the last scene
    (the clamp of sceneIndex) with frameWithinScene = 0 and opacity 0. *)
Theorem scene_schedule (count : nat) (perScene i w : Z)
  (Hp : (1 <= perScene)%Z) (Hi : (0 <= i < Z.of_nat count)%Z)
  (Hw : (0 <= w < perScene)%Z) :
  Timeline.sceneIndex count perScene (i * perScene + w) = i /\
  Timeline.frameWithinScene perScene (i * perScene + w) = w /\
  Timeline.sceneIndex count perScene (perScene * Z.of_nat count) =
    (Z.of_nat count - 1)%Z /\
  Timeline.frameWithinScene perScene (perScene * Z.of_nat count) = 0%Z /\
  Timeline.opacity perScene (perScene * Z.of_nat count) == 0.
Proof.
  destruct (frameWithinScene_offset perScene i w Hp ltac:(lia) Hw) as [Hrem Hdiv].
  destruct (frameWithinScene_offset perScene (Z.of_nat count) 0 Hp ltac:(lia) ltac:(lia))
    as [Hrem' Hdiv'].
  rewrite Z.add_0_r, Z.mul_comm in Hrem', Hdiv'.
  unfold Timeline.sceneIndex. rewrite !floor_div, Hdiv, Hdiv'.
  split; [lia|]. split; [exact Hrem|]. split; [lia|]. split; [exact Hrem'|].
  unfold Timeline.opacity. rewrite Hrem'.
  rewrite opacityWithin_fade_in by (pose proof (fadeSpan_ge_6 perScene); lia).
  apply ratio_zero.
Qed.

Lemma scene_schedule_witness :
  Timeline.sceneIndex 3 120 (1 * 120 + 119) = 1%Z /\
  Timeline.frameWithinScene 120 (1 * 120 + 119) = 119%Z /\
  Timeline.sceneIndex 3 120 (120 * Z.of_nat 3) = (Z.of_nat 3 - 1)%Z /\
  Timeline.frameWithinScene 120 (120 * Z.of_nat 3) = 0%Z /\
  Timeline.opacity 120 (120 * Z.of_nat 3) == 0.
Proof. apply (scene_schedule 3 120 1 119); lia. Defined.

Lemma opacityWithin_below_one (perScene within : Z) :
  (perScene < 12)%Z -> (0 <= within < perScene)%Z ->
  Timeline.opacityWithin perScene within < 1.
Proof.
  intros Hshort Hw.
  assert (Hspan : Timeline.fadeSpan perScene = 6%Z).
  { rewrite fadeSpan_eq.
    assert (perScene / 6 < 2)%Z by (apply Z.div_lt_upper_bound; lia). lia. }
  destruct (Z_lt_ge_dec within 6) as [Hin | Hout].
  - rewrite opacityWithin_fade_in by lia. rewrite Hspan.
    apply ratio_bounds; lia.
  - rewrite opacityWithin_fade_out by lia. rewrite Hspan.
    destruct (ratio_bounds (perScene - within) 6) as [Hlo Hhi]; try lia.
    now rewrite Qmax_0_nonneg.
Qed.

(** X10. A scene is ever painted at full opacity exactly when
    framesPerScene is at least 12: from 12 frames on the opacity is 1 at
    frameWithinScene = fadeSpan, and below 12 frames (a scene shorter
    than 0.4 s) the fade-in and fade-out windows cover every frame, so
    the opacity stays strictly below 1 throughout. *)
Theorem full_opacity_iff (perScene : Z) (Hp : (1 <= perScene)%Z) :
  ((exists frame, (0 <= frame)%Z /\ Timeline.opacity perScene frame == 1) <->
   (12 <= perScene)%Z) /\
  ((perScene < 12)%Z ->
   forall frame, (0 <= frame)%Z -> Timeline.opacity perScene frame < 1).
Proof.
  assert (Hshort : (perScene < 12)%Z ->
                   forall frame, (0 <= frame)%Z -> Timeline.opacity perScene frame < 1).
  { intros Hs frame Hf. unfold Timeline.opacity.
    apply opacityWithin_below_one; [assumption|].
    now apply frameWithinScene_bounds. }
  split; [|exact Hshort]. split.
  - intros (frame & Hf & E).
    destruct (Z_lt_ge_dec perScene 12) as [Hs | Hl]; [|lia].
    specialize (Hshort Hs frame Hf). rewrite E in Hshort. discriminate Hshort.
  - intros H12. exists (Timeline.fadeSpan perScene).
    pose proof (fadeSpan_ge_6 perScene) as H6.
    pose proof (fadeSpan_twice perScene H12) as H2.
    split; [lia|].
    unfold Timeline.opacity, Timeline.frameWithinScene.
    rewrite Z.rem_small by lia.
    rewrite opacityWithin_hold by lia. reflexivity.
Qed.

Lemma full_opacity_iff_witness :
  ((exists frame, (0 <= frame)%Z /\ Timeline.opacity 9 frame == 1) <->
   (12 <= 9)%Z) /\
  ((9 < 12)%Z ->
   forall frame, (0 <= frame)%Z -> Timeline.opacity 9 frame < 1).
Proof. apply (full_opacity_iff 9). lia. Defined.

(** X11. During a render the scene looked up by the timeline step always
    exists: for a non-empty scene list, framesPerScene >= 1 and any frame
    counter from 0 on, scenes[sceneIndex] is defined.  The index never
    decreases as the counter grows. *)
Theorem scene_lookup_defined (scs : list Scene) (perScene frame : Z)
  (Hne : scs <> []) (Hp : (1 <= perScene)%Z) (Hf : (0 <= frame)%Z) :
  let index := Timeline.sceneIndex (List.length scs) perScene frame in
  nth_error scs (Z.to_nat index) = Some (sceneAt scs index) /\
  (forall later, (frame <= later)%Z ->
     (index <= Timeline.sceneIndex (List.length scs) perScene later)%Z).
Proof.
  intros index.
  assert (Hlen : (1 <= List.length scs)%nat)
    by (destruct scs; [congruence | cbn; lia]).
  pose proof (sceneIndex_in_range (List.length scs) perScene frame Hlen Hp Hf) as Hr.
  fold index in Hr. split.
  - unfold sceneAt. apply nth_error_nth'. lia.
  - intros later Hl. unfold index, Timeline.sceneIndex. rewrite !floor_div.
    pose proof (Z.div_le_mono frame later perScene ltac:(lia) Hl). lia.
Qed.

Lemma scene_lookup_defined_witness :
  let scs := [mkScene "A" (Some "one"); mkScene "B" None] in
  let index := Timeline.sceneIndex (List.length scs) 120 240 in
  nth_error scs (Z.to_nat index) = Some (sceneAt scs index) /\
  (forall later, (240 <= later)%Z ->
     (index <= Timeline.sceneIndex (List.length scs) 120 later)%Z).
Proof.
  intros scs. apply (scene_lookup_defined scs 120 240); [discriminate | lia | lia].
Defined.

(** ** Progress bar and background geometry *)

(** X12. The progress bar is painted at x = 256, y = 640 with height 12:
    the track is 768 wide, and the fill is 768 * currentFrame / totalFrames
    wide, which is between 0 and 768 for every frame of a render, 0 at
    frame 0 and the full 768 at currentFrame = totalFrames. *)
Theorem progress_bar_geometry (cfg : StyleConfig) (current total : Z) (ctx : Context)
  (Htotal : (1 <= total)%Z) (Hcur : (0 <= current <= total)%Z) :
  exists x y h full w st st',
    painted (exec drawTrack ctx) = painted ctx ++ [FillRect x y full h st] /\
    painted (exec (drawFill cfg current total) ctx) =
      painted ctx ++ [FillRect x y w h st'] /\
    x == 256 /\ y == 640 /\ h == 12 /\ full == 768 /\
    w == 768 * (inject_Z current / inject_Z total) /\
    0 <= w /\ w <= 768 /\
    (current = 0%Z -> w == 0) /\
    (current = total -> w == 768).
Proof.
  assert (Hpos : 0 < inject_Z total)
    by (change 0 with (inject_Z 0); rewrite <- Zlt_Qlt; lia).
  assert (Hlo : 0 <= inject_Z current / inject_Z total).
  { apply Qle_shift_div_l; [exact Hpos|]. rewrite Qmult_0_l.
    change 0 with (inject_Z 0). rewrite <- Zle_Qle. lia. }
  assert (Hhi : inject_Z current / inject_Z total <= 1).
  { apply Qle_shift_div_r; [exact Hpos|]. rewrite Qmult_1_l.
    rewrite <- Zle_Qle. lia. }
  do 7 eexists.
  split; [reflexivity|]. split; [reflexivity|].
  split; [reflexivity|]. split; [reflexivity|]. split; [reflexivity|].
  split; [reflexivity|].
  assert (Ew : inject_Z CANVAS_WIDTH * (6 # 10) * (inject_Z current / inject_Z total)
               == 768 * (inject_Z current / inject_Z total))
    by (apply Qmult_comp; reflexivity).
  split; [exact Ew|]. rewrite Ew.
  split; [|split; [|split]].
  - setoid_replace 0 with (768 * 0) by ring.
    apply Qmult_le_l; [reflexivity | exact Hlo].
  - setoid_replace 768 with (768 * 1) at 2 by ring.
    apply Qmult_le_l; [reflexivity | exact Hhi].
  - intros ->. rewrite ratio_zero. ring.
  - intros ->. rewrite ratio_one by lia. ring.
Qed.

Lemma progress_bar_geometry_witness :
  exists x y h full w st st',
    painted (exec drawTrack freshContext) =
      painted freshContext ++ [FillRect x y full h st] /\
    painted (exec (drawFill defaultStyle 60 240) freshContext) =
      painted freshContext ++ [FillRect x y w h st'] /\
    x == 256 /\ y == 640 /\ h == 12 /\ full == 768 /\
    w == 768 * (inject_Z 60 / inject_Z 240) /\
    0 <= w /\ w <= 768 /\
    (60%Z = 0%Z -> w == 0) /\
    (60%Z = 240%Z -> w == 768).
Proof. apply (progress_bar_geometry defaultStyle 60 240 freshContext); lia. Defined.

Lemma remOne_bounds (x : Q) : 0 <= x -> 0 <= remOne x /\ remOne x < 1.
Proof.
  intros Hx. unfold remOne.
  assert (E : Qle_bool 0 x = true) by now apply Qle_bool_iff.
  rewrite E. split.
  - setoid_replace 0 with (inject_Z (Qfloor x) - inject_Z (Qfloor x)) by ring.
    apply Qplus_le_compat; [apply Qfloor_le | apply Qle_refl].
  - pose proof (Qlt_floor x) as H. rewrite inject_Z_plus in H.
    apply (Qplus_lt_l _ _ (inject_Z (Qfloor x))).
    setoid_replace (x - inject_Z (Qfloor x) + inject_Z (Qfloor x)) with x by ring.
    now rewrite Qplus_comm.
Qed.

(** X13. For every frame of a render (progress from 0 on) and every blob
    index from 0 on, the centre of the blob lies inside the canvas:
    192 <= blobX < 1088 and 180 < blobY <= 540.  Where the sine stays in
    [-1, 1] the radius lies in [120, 240], so it is never negative. *)
Theorem blob_geometry_bounds (Math_sin : Angle -> Q) (progress : Q) (index : Z)
  (Hprogress : 0 <= progress) (Hindex : (0 <= index)%Z) :
  (192 <= blobX progress index /\ blobX progress index < 1088) /\
  (180 < blobY progress index /\ blobY progress index <= 540) /\
  (-1 <= Math_sin (mkAngle progress (inject_Z index)) <= 1 ->
   120 <= blobRadius Math_sin progress index <= 240).
Proof.
  assert (Harg : 0 <= progress * inject_Z (index + 1) * (7 # 10)
                      + inject_Z index * (13 # 100)).
  { assert (H1 : 0 <= inject_Z (index + 1))
      by (change 0 with (inject_Z 0); rewrite <- Zle_Qle; lia).
    assert (H2 : 0 <= inject_Z index)
      by (change 0 with (inject_Z 0); rewrite <- Zle_Qle; lia).
    setoid_replace 0 with (0 + 0) by ring.
    apply Qplus_le_compat.
    - apply Qmult_le_0_compat; [|discriminate].
      now apply Qmult_le_0_compat.
    - apply Qmult_le_0_compat; [exact H2 | discriminate]. }
  destruct (remOne_bounds _ Harg) as [Hlo Hhi].
  unfold blobX, blobY, blobRadius, blobProgress.
  set (b := remOne _) in *.
  split; [|split].
  - split.
    + setoid_replace 192 with (inject_Z CANVAS_WIDTH * ((15 # 100) + (7 # 10) * 0))
        by reflexivity.
      apply Qmult_le_l; [reflexivity|].
      apply Qplus_le_r. apply Qmult_le_l; [reflexivity | exact Hlo].
    + setoid_replace 1088 with (inject_Z CANVAS_WIDTH * ((15 # 100) + (7 # 10) * 1))
        by reflexivity.
      apply Qmult_lt_l; [reflexivity|].
      apply Qplus_lt_r. apply Qmult_lt_l; [reflexivity | exact Hhi].
  - split.
    + setoid_replace 180 with (inject_Z CANVAS_HEIGHT * ((25 # 100) + (5 # 10) * (1 - 1)))
        by reflexivity.
      apply Qmult_lt_l; [reflexivity|].
      apply Qplus_lt_r. apply Qmult_lt_l; [reflexivity|].
      apply Qplus_lt_r. now apply Qopp_lt_compat.
    + setoid_replace 540 with (inject_Z CANVAS_HEIGHT * ((25 # 100) + (5 # 10) * (1 - 0)))
        by reflexivity.
      apply Qmult_le_l; [reflexivity|].
      apply Qplus_le_r. apply Qmult_le_l; [reflexivity|].
      apply Qplus_le_r. now apply Qopp_le_compat.
  - intros [Hs1 Hs2]. set (sn := Math_sin _) in *. split.
    + setoid_replace 120 with (180 + (-1) * 60) by reflexivity.
      apply Qplus_le_r. apply Qmult_le_compat_r; [exact Hs1 | discriminate].
    + setoid_replace 240 with (180 + 1 * 60) by reflexivity.
      apply Qplus_le_r. apply Qmult_le_compat_r; [exact Hs2 | discriminate].
Qed.

Lemma blob_geometry_bounds_witness :
  (192 <= blobX (1 # 3) 4 /\ blobX (1 # 3) 4 < 1088) /\
  (180 < blobY (1 # 3) 4 /\ blobY (1 # 3) 4 <= 540) /\
  (-1 <= sinAtZero (mkAngle (1 # 3) (inject_Z 4)) <= 1 ->
   120 <= blobRadius sinAtZero (1 # 3) 4 <= 240).
Proof. apply (blob_geometry_bounds sinAtZero (1 # 3) 4); [discriminate | lia]. Defined.

(** ** Tearing down and starting a render *)

Lemma teardownRecording_fields (p : Page) :
  rafRef (teardownRecording p) = None /\
  recorderRef (teardownRecording p) = None /\
  calls (teardownRecording p) = calls p ++ teardownCalls p /\
  canvasContext (teardownRecording p) = canvasContext p /\
  renderError (teardownRecording p) = renderError p /\
  isRendering (teardownRecording p) = isRendering p /\
  nextHandle (teardownRecording p) = nextHandle p.
Proof.
  destruct p as [raf rec err rendering ctx next log].
  unfold teardownRecording, teardownCalls, stopRecorder.
  destruct raf as [h|], rec as [[m b [|] col]|]; cbn;
    rewrite ?app_nil_r, <- ?app_assoc; repeat split; reflexivity.
Qed.

Lemma teardownCalls_windDown (p : Page) : Forall windsDown (teardownCalls p).
Proof.
  unfold teardownCalls.
  destruct (rafRef p) as [h|], (recorderRef p) as [[m b [|] col]|]; cbn;
    repeat (apply Forall_cons;
            [first [now left | right; eexists; reflexivity]|]);
    apply Forall_nil.
Qed.

(** X14. [teardownRecording] clears both refs, cancels the pending frame
    callback when there is one, stops the recorder when it is recording,
    and makes no other browser call; it leaves the canvas, the error
    message and the rendering flag alone, and doing it twice is doing it
    once. *)
Theorem teardownRecording_effect (p : Page) :
  let p' := teardownRecording p in
  rafRef p' = None /\ recorderRef p' = None /\
  calls p' = calls p ++ teardownCalls p /\
  canvasContext p' = canvasContext p /\
  renderError p' = renderError p /\
  isRendering p' = isRendering p /\
  nextHandle p' = nextHandle p /\
  teardownRecording p' = p'.
Proof.
  cbv zeta. destruct (teardownRecording_fields p) as (H1 & H2 & H3 & H4 & H5 & H6 & H7).
  repeat split; try assumption.
  destruct p as [raf rec err rendering ctx next log].
  unfold teardownRecording, stopRecorder.
  destruct raf as [h|], rec as [[m b [|] col]|]; reflexivity.
Qed.

Lemma find_first {A : Type} (f : A -> bool) (xs : list A) (x : A) :
  find f xs = Some x ->
  f x = true /\
  exists earlier later, xs = earlier ++ x :: later /\
                        Forall (fun y => f y = false) earlier.
Proof.
  induction xs as [|y ys IH]; cbn; [discriminate|].
  destruct (f y) eqn:E.
  - intros H. injection H as <-. split; [assumption|].
    exists [], ys. split; [reflexivity | constructor].
  - intros H. destruct (IH H) as (Hx & earlier & later & -> & Hall).
    split; [assumption|].
    exists (y :: earlier), later. split; [reflexivity | now constructor].
Qed.

Lemma find_none_iff {A : Type} (f : A -> bool) (xs : list A) :
  find f xs = None <-> Forall (fun y => f y = false) xs.
Proof.
  induction xs as [|y ys IH]; cbn.
  - split; [constructor | reflexivity].
  - destruct (f y) eqn:E.
    + split; [discriminate|]. intros H. inversion H; congruence.
    + rewrite IH. split; [now constructor | intros H; now inversion H].
Qed.

(** X15. A generate request starts a render exactly when the page runs
    in a browser with MediaRecorder, the canvas is mounted, the script
    has a scene, the 2D context is available and one of the preferred
    MIME types is supported. *)
Theorem startRender_succeeds_iff
  (cfg : StyleConfig) (host : Host) (script : string) (p : Page) :
  (exists p0 s0, startRender cfg host script p = (p0, Some s0)) <->
  (isClient host = true /\ hasMediaRecorder host = true /\
   canvasMounted host = true /\ scenes script <> [] /\
   contextAvailable host = true /\
   exists mime, In mime MIME_PREFERENCE /\ isTypeSupported host mime = true).
Proof.
  unfold startRender. split.
  - intros (p0 & s0 & E).
    destruct (isClient host); cbn [negb] in E; [|discriminate].
    destruct (hasMediaRecorder host); cbn [negb] in E; [|discriminate].
    destruct (canvasMounted host); cbn [negb] in E; [|discriminate].
    destruct (List.length (scenes script) =? 0)%nat eqn:El; [discriminate|].
    destruct (contextAvailable host); cbn [negb] in E; [|discriminate].
    destruct (find (isTypeSupported host) MIME_PREFERENCE) as [mime|] eqn:Ef;
      [|discriminate].
    repeat split; try reflexivity.
    + intros En. rewrite En in El. discriminate.
    + exists mime. destruct (find_first _ _ _ Ef) as (Hs & earlier & later & Em & _).
      split; [|assumption]. rewrite Em. apply in_or_app. right. now left.
  - intros (-> & -> & -> & Hne & -> & mime & Hin & Hs). cbn [negb].
    destruct (List.length (scenes script) =? 0)%nat eqn:El.
    { apply Nat.eqb_eq in El. destruct (scenes script); [congruence | discriminate]. }
    destruct (find (isTypeSupported host) MIME_PREFERENCE) as [m|] eqn:Ef.
    + eexists. eexists. reflexivity.
    + apply find_none_iff in Ef. rewrite Forall_forall in Ef.
      specialize (Ef mime Hin). congruence.
Qed.

Lemma startRender_fields
  (cfg : StyleConfig) (host : Host) (script : string) (p p0 : Page) (s0 : Session)
  (Hstart : startRender cfg host script p = (p0, Some s0)) :
  exists mime earlier later,
    MIME_PREFERENCE = earlier ++ mime :: later /\
    Forall (fun m => isTypeSupported host m = false) earlier /\
    isTypeSupported host mime = true /\
    recorderRef p0 = Some (mkRecorder mime 6000000 Recording true) /\
    calls p0 = calls p ++ teardownCalls p ++
               [CaptureStream 30; NewMediaRecorder mime 6000000; RecorderStart] /\
    canvasContext p0 = freshContext /\
    chunks s0 = [] /\
    renderError p0 = None /\ isRendering p0 = true.
Proof.
  unfold startRender in Hstart.
  destruct (isClient host); cbn [negb] in Hstart; [|discriminate].
  destruct (hasMediaRecorder host); cbn [negb] in Hstart; [|discriminate].
  destruct (canvasMounted host); cbn [negb] in Hstart; [|discriminate].
  destruct (List.length (scenes script) =? 0)%nat; [discriminate|].
  destruct (contextAvailable host); cbn [negb] in Hstart; [|discriminate].
  destruct (find (isTypeSupported host) MIME_PREFERENCE) as [mime|] eqn:Ef;
    [|discriminate].
  destruct (find_first _ _ _ Ef) as (Hs & earlier & later & Em & Hall).
  exists mime, earlier, later.
  injection Hstart as <- <-.
  destruct (teardownRecording_fields p) as (_ & _ & Hcalls & _).
  split; [exact Em|]. split; [exact Hall|]. split; [exact Hs|].
  cbn -[teardownRecording teardownCalls].
  rewrite Hcalls, <- !app_assoc. repeat split; reflexivity.
Qed.

(** X16. A render that starts records with the first supported MIME
    type of the preference list (every type before it is unsupported), at
    6,000,000 bits per second, with the chunk handler attached; and
    besides tearing down the render before it, it calls captureStream(30),
    constructs the recorder and starts it, in this order.  The canvas is
    cleared and the chunk buffer is empty. *)
Theorem startRender_recorder
  (cfg : StyleConfig) (host : Host) (script : string) (p p0 : Page) (s0 : Session)
  (Hstart : startRender cfg host script p = (p0, Some s0)) :
  exists mime earlier later,
    MIME_PREFERENCE = earlier ++ mime :: later /\
    Forall (fun m => isTypeSupported host m = false) earlier /\
    isTypeSupported host mime = true /\
    recorderRef p0 = Some (mkRecorder mime 6000000 Recording true) /\
    calls p0 = calls p ++ teardownCalls p ++
               [CaptureStream 30; NewMediaRecorder mime 6000000; RecorderStart] /\
    canvasContext p0 = freshContext /\
    chunks s0 = [] /\
    renderError p0 = None /\ isRendering p0 = true.
Proof. exact (startRender_fields cfg host script p p0 s0 Hstart). Qed.

Lemma startRender_recorder_witness :
  exists p0 s0,
    startRender defaultStyle
      (mkHost true true true true (fun m => String.eqb m "video/webm;codecs=vp8"))
      "A" mountedPage = (p0, Some s0) /\
    exists mime earlier later,
      MIME_PREFERENCE = earlier ++ mime :: later /\
      Forall (fun m => String.eqb m "video/webm;codecs=vp8" = false) earlier /\
      String.eqb mime "video/webm;codecs=vp8" = true /\
      recorderRef p0 = Some (mkRecorder mime 6000000 Recording true) /\
      calls p0 = calls mountedPage ++ teardownCalls mountedPage ++
                 [CaptureStream 30; NewMediaRecorder mime 6000000; RecorderStart] /\
      canvasContext p0 = freshContext /\
      chunks s0 = [] /\
      renderError p0 = None /\ isRendering p0 = true.
Proof.
  eexists. eexists. split; [reflexivity|].
  exact (startRender_recorder defaultStyle
           (mkHost true true true true (fun m => String.eqb m "video/webm;codecs=vp8"))
           "A" mountedPage _ _ eq_refl).
Defined.

Lemma handleGenerate_none
      (Math_sin Math_cos : Angle -> Q) (measureText : string -> string -> Q)
      (cfg : StyleConfig) (host : Host) (script : string) (p : Page) :
  snd (handleGenerate Math_sin Math_cos measureText cfg host script p) = None ->
  handleGenerate Math_sin Math_cos measureText cfg host script p =
    (fst (startRender cfg host script p), None) /\
  snd (startRender cfg host script p) = None.
Proof.
  unfold handleGenerate.
  destruct (startRender cfg host script p) as [p1 [s1|]]; cbn [fst snd].
  - destruct (renderFrame _ _ _ _ _). cbn. discriminate.
  - now split.
Qed.

(** X17. A generate request that does not start a render starts
    nothing, whichever guard stopped it: the only browser calls it can
    have made are those that wind the previous render down, no recorder
    is held that was not held before, the canvas keeps what it showed or
    is blank, nothing is scheduled and the rendering flag is not raised.
    In a browser the request leaves one of the five error messages. *)
Theorem failed_generate_starts_nothing
  (Math_sin Math_cos : Angle -> Q) (measureText : string -> string -> Q)
  (cfg : StyleConfig) (host : Host) (script : string) (p : Page)
  (Hfail : snd (handleGenerate Math_sin Math_cos measureText cfg host script p) = None) :
  let p' := fst (handleGenerate Math_sin Math_cos measureText cfg host script p) in
  (exists extra, calls p' = calls p ++ extra /\ Forall windsDown extra) /\
  (recorderRef p' = recorderRef p \/ recorderRef p' = None) /\
  (rafRef p' = rafRef p \/ rafRef p' = None) /\
  (painted (canvasContext p') = painted (canvasContext p) \/
   painted (canvasContext p') = []) /\
  (isRendering p' = isRendering p \/ isRendering p' = false) /\
  (isClient host = true ->
   exists msg, renderError p' = Some msg /\
               In msg [CaptureUnsupported; SurfaceUnavailable; NoScenes;
                       ContextUnavailable; NoSupportedCodec]).
Proof.
  destruct (handleGenerate_none _ _ _ _ _ _ _ Hfail) as [E Hnone].
  rewrite E. cbn [fst]. clear E Hfail.
  destruct (teardownRecording_fields p) as (T1 & T2 & T3 & T4 & T5 & T6 & T7).
  pose proof (teardownCalls_windDown p) as Hwind.
  assert (Hsame : exists extra, calls p = calls p ++ extra /\ Forall windsDown extra).
  { exists []. split; [now rewrite app_nil_r | constructor]. }
  unfold startRender in *.
  destruct (isClient host); cbn [negb] in *.
  2:{ cbn. repeat split; auto. discriminate. }
  destruct (hasMediaRecorder host); cbn [negb] in *.
  2:{ cbn. repeat split; auto. intros _. eexists. split; [reflexivity|]. cbn. auto. }
  destruct (canvasMounted host); cbn [negb] in *.
  2:{ cbn. repeat split; auto. intros _. eexists. split; [reflexivity|]. cbn. auto. }
  destruct (List.length (scenes script) =? 0)%nat.
  { cbn. repeat split; auto. intros _. eexists. split; [reflexivity|]. cbn. auto. }
  destruct (contextAvailable host); cbn [negb] in *.
  2:{ cbn -[teardownRecording]. rewrite T1, T2, T3, T4.
      split; [now exists (teardownCalls p)|].
      repeat split; auto.
      intros _. eexists. split; [reflexivity|]. cbn. auto 6. }
  destruct (find (isTypeSupported host) MIME_PREFERENCE); [discriminate|].
  cbn -[teardownRecording]. rewrite T1, T2, T3.
  split; [now exists (teardownCalls p)|].
  repeat split; auto.
  intros _. eexists. split; [reflexivity|]. cbn. auto 6.
Qed.

Lemma failed_generate_starts_nothing_witness :
  let host := mkHost true true true true (fun _ => false) in
  let p' := fst (handleGenerate sinAtZero cosAtZero fixedPitch defaultStyle
                                host "A" mountedPage) in
  (exists extra, calls p' = calls mountedPage ++ extra /\ Forall windsDown extra) /\
  (recorderRef p' = recorderRef mountedPage \/ recorderRef p' = None) /\
  (rafRef p' = rafRef mountedPage \/ rafRef p' = None) /\
  (painted (canvasContext p') = painted (canvasContext mountedPage) \/
   painted (canvasContext p') = []) /\
  (isRendering p' = isRendering mountedPage \/ isRendering p' = false) /\
  (isClient host = true ->
   exists msg, renderError p' = Some msg /\
               In msg [CaptureUnsupported; SurfaceUnavailable; NoScenes;
                       ContextUnavailable; NoSupportedCodec]).
Proof.
  intros host.
  apply (failed_generate_starts_nothing sinAtZero cosAtZero fixedPitch defaultStyle
           host "A" mountedPage).
  reflexivity.
Defined.

(** ** The codec label *)

Lemma find_preference (f : string -> bool) :
  find f MIME_PREFERENCE = None \/
  find f MIME_PREFERENCE = Some "video/webm;codecs=vp9" \/
  find f MIME_PREFERENCE = Some "video/webm;codecs=vp8" \/
  find f MIME_PREFERENCE = Some "video/webm;codecs=h264" \/
  find f MIME_PREFERENCE = Some "video/webm".
Proof.
  unfold MIME_PREFERENCE. cbn [find].
  destruct (f "video/webm;codecs=vp9"); [auto|].
  destruct (f "video/webm;codecs=vp8"); [auto|].
  destruct (f "video/webm;codecs=h264"); [auto|].
  destruct (f "video/webm"); auto.
Qed.

(** X18. In a browser the codec label reads Unavailable exactly when a
    generate request cannot get a recorder (no MediaRecorder, or none of
    the preferred MIME types supported); and whenever a render starts,
    the label names the codec the recorder was constructed with: VP9,
    VP8 or H264 for the three codec-specific types and plain WebM for
    the generic one. *)
Theorem codecLabel_matches_recorder (host : Host) :
  (isClient host = true ->
   (codecLabel host = "Unavailable" <->
    hasMediaRecorder host = false \/
    find (isTypeSupported host) MIME_PREFERENCE = None)) /\
  (forall cfg script p p0 s0,
     startRender cfg host script p = (p0, Some s0) ->
     exists r, recorderRef p0 = Some r /\
       (mimeType r = "video/webm;codecs=vp9" /\ codecLabel host = "WebM / VP9" \/
        mimeType r = "video/webm;codecs=vp8" /\ codecLabel host = "WebM / VP8" \/
        mimeType r = "video/webm;codecs=h264" /\ codecLabel host = "WebM / H264" \/
        mimeType r = "video/webm" /\ codecLabel host = "WebM")).
Proof.
  split.
  - intros Hc. unfold codecLabel. rewrite Hc. cbn [negb].
    destruct (hasMediaRecorder host); cbn [negb]; [|split; auto].
    destruct (find_preference (isTypeSupported host))
      as [E | [E | [E | [E | E]]]]; rewrite E;
      (split; [vm_compute; intros H; try discriminate H; auto
              | intros [H | H]; first [discriminate H | reflexivity]]).
  - intros cfg script p p0 s0 Hstart.
    unfold startRender in Hstart. unfold codecLabel.
    destruct (isClient host); cbn [negb] in *; [|discriminate].
    destruct (hasMediaRecorder host); cbn [negb] in *; [|discriminate].
    destruct (canvasMounted host); cbn [negb] in *; [|discriminate].
    destruct (List.length (scenes script) =? 0)%nat; [discriminate|].
    destruct (contextAvailable host); cbn [negb] in *; [|discriminate].
    destruct (find_preference (isTypeSupported host))
      as [E | [E | [E | [E | E]]]]; rewrite E in *; [discriminate| | | |];
      injection Hstart as <- <-; eexists; (split; [reflexivity|]);
      cbn [mimeType]; vm_compute; auto 6.
Qed.

(** ** A whole render *)

Section RenderRun.

Variables Math_sin Math_cos : Angle -> Q.
Variable measureText : string -> string -> Q.
Variable cfg : StyleConfig.

Let frame := renderFrame Math_sin Math_cos measureText cfg.
Let run := refreshes Math_sin Math_cos measureText cfg.

Lemma stopRecorder_canvas (detach : bool) (p : Page) :
  canvasContext (stopRecorder detach p) = canvasContext p /\
  nextHandle (stopRecorder detach p) = nextHandle p /\
  renderError (stopRecorder detach p) = renderError p /\
  isRendering (stopRecorder detach p) = isRendering p.
Proof.
  unfold stopRecorder. destruct (recorderRef p) as [r|]; [|now repeat split].
  destruct (recorderState r); now repeat split.
Qed.

(** Whatever branch it takes, [renderFrame] replaces the canvas content
    by the frame painted over it and leaves the React state alone. *)
Lemma renderFrame_page (p : Page) (s : Session) :
  canvasContext (fst (frame (p, s))) =
    exec (paintFrame Math_sin Math_cos measureText cfg s) (canvasContext p) /\
  renderError (fst (frame (p, s))) = renderError p /\
  isRendering (fst (frame (p, s))) = isRendering p /\
  sessionScenes (snd (frame (p, s))) = sessionScenes s /\
  framesPerScene (snd (frame (p, s))) = framesPerScene s /\
  chunks (snd (frame (p, s))) = chunks s.
Proof.
  unfold frame, renderFrame. cbn [currentFrame totalFrames].
  destruct (_ <=? _)%Z; cbn [fst snd].
  - now repeat split.
  - destruct (stopRecorder_canvas false
                (setRafRef None
                   (setContext
                      (exec (paintFrame Math_sin Math_cos measureText cfg s)
                            (canvasContext p)) p))) as (H1 & _ & H3 & H4).
    rewrite H1, H3, H4. now repeat split.
Qed.

Lemma renderFrame_next_handle (p : Page) (s : Session) :
  (currentFrame s + 1 <= totalFrames s)%Z ->
  nextHandle (fst (frame (p, s))) = Pos.succ (nextHandle p).
Proof.
  intros H. unfold frame, renderFrame. cbn [currentFrame totalFrames].
  now rewrite (proj2 (Z.leb_le _ _) H).
Qed.

Lemma refreshes_idle (n : nat) (ps : Page * Session) :
  rafRef (fst ps) = None -> run n ps = ps.
Proof.
  intros H. induction n as [|n IH]; [reflexivity|].
  unfold run in *. cbn [refreshes]. unfold animationFrame. now rewrite H.
Qed.

(** From a state with [m] frames to go before the last one, [m] display
    refreshes after the call of [renderFrame] finish the render. *)
Lemma render_log (m : nat) :
  forall (p : Page) (s : Session),
    (currentFrame s + Z.of_nat m = totalFrames s)%Z ->
    (exists r, recorderRef p = Some r /\ recorderState r = Recording) ->
    let final := run m (frame (p, s)) in
    calls (fst final) =
      calls p ++ map RequestAnimationFrame (handlesFrom (nextHandle p) m)
              ++ [RecorderStop] /\
    rafRef (fst final) = None.
Proof.
  induction m as [|m IH]; intros p s Hc Hrec; cbv zeta.
  - unfold run. cbn [refreshes handlesFrom map app].
    destruct (renderFrame_finished Math_sin Math_cos measureText cfg p s ltac:(lia))
      as (Hraf & Hstop & _).
    cbv zeta in *. destruct Hrec as (r & Hr & Hst).
    destruct (Hstop r Hr) as [_ Hcalls]. fold frame in Hraf, Hcalls.
    split; [now apply Hcalls | exact Hraf].
  - destruct (renderFrame_scheduled Math_sin Math_cos measureText cfg p s ltac:(lia))
      as (Hraf & Hrr & Hcalls & Hcur & Htot).
    cbv zeta in *. fold frame in Hraf, Hrr, Hcalls, Hcur, Htot.
    pose proof (renderFrame_next_handle p s ltac:(lia)) as Hnext.
    unfold run. cbn [refreshes]. unfold animationFrame. rewrite Hraf.
    fold frame. fold run.
    destruct (frame (p, s)) as [p1 s1] eqn:E. cbn [fst snd] in *.
    destruct (IH p1 s1) as [I1 I2].
    + rewrite Hcur, Htot. lia.
    + now rewrite Hrr.
    + cbv zeta in *. split; [|exact I2].
      rewrite I1, Hcalls, Hnext. cbn [handlesFrom map].
      now rewrite <- !app_assoc.
Qed.

End RenderRun.

(** X19. A render that starts is finished by totalFrames display
    refreshes after the generate request: over the whole render the page
    asks for exactly totalFrames animation frames, with consecutive
    handles, and then stops the recorder once, as its last call.  After
    that no callback is pending and further display refreshes change
    nothing. *)
Theorem render_call_log
  (Math_sin Math_cos : Angle -> Q) (measureText : string -> string -> Q)
  (cfg : StyleConfig) (host : Host) (script : string) (p p0 : Page) (s0 : Session)
  (Hstart : startRender cfg host script p = (p0, Some s0)) :
  let total := Z.to_nat (totalFrames s0) in
  let final := refreshes Math_sin Math_cos measureText cfg total
                 (renderFrame Math_sin Math_cos measureText cfg (p0, s0)) in
  calls (fst final) =
    calls p0 ++ map RequestAnimationFrame (handlesFrom (nextHandle p0) total)
             ++ [RecorderStop] /\
  rafRef (fst final) = None /\
  (forall n, refreshes Math_sin Math_cos measureText cfg n final = final).
Proof.
  intros total final.
  destruct (startRender_session cfg host script p p0 s0 Hstart)
    as (_ & _ & H0 & _ & _ & Hpos & _ & Hrec).
  destruct (render_log Math_sin Math_cos measureText cfg total p0 s0) as [H1 H2].
  - unfold total. lia.
  - exact Hrec.
  - cbv zeta in *. fold final in H1, H2.
    split; [exact H1|]. split; [exact H2|].
    intros n. now apply refreshes_idle.
Qed.

Lemma render_call_log_witness :
  exists p0 s0,
    startRender defaultStyle capableHost "A" mountedPage = (p0, Some s0) /\
    let final := refreshes sinAtZero cosAtZero fixedPitch defaultStyle 120
                   (renderFrame sinAtZero cosAtZero fixedPitch defaultStyle (p0, s0)) in
    calls (fst final) =
      calls p0 ++ map RequestAnimationFrame (handlesFrom (nextHandle p0) 120)
               ++ [RecorderStop].
Proof.
  eexists. eexists. split; [reflexivity|].
  exact (proj1 (render_call_log sinAtZero cosAtZero fixedPitch defaultStyle
                  capableHost "A" mountedPage _ _ eq_refl)).
Defined.

(** The part of the paint state that no frame changes. *)
Lemma paintFrame_keeps
      (Math_sin Math_cos : Angle -> Q) (measureText : string -> string -> Q)
      (cfg : StyleConfig) (s : Session) (ctx : Context) :
  let after := exec (paintFrame Math_sin Math_cos measureText cfg s) ctx in
  globalAlpha (paintState after) = globalAlpha (paintState ctx) /\
  font (paintState after) = font (paintState ctx) /\
  textAlign (paintState after) = textAlign (paintState ctx) /\
  textBaseline (paintState after) = textBaseline (paintState ctx) /\
  saved after = saved ctx.
Proof.
  intros after.
  destruct (paintFrame_state Math_sin Math_cos measureText cfg s ctx) as [E1 E2].
  fold after in E1, E2. rewrite E1, E2.
  destruct (drawBackground_effect Math_sin Math_cos cfg
              (Timeline.overallProgress (currentFrame s) (totalFrames s)) ctx)
    as [-> _].
  now repeat split.
Qed.

(** X20. Through a whole render every frame is painted from the same
    paint state: after the canvas reset of the generate request and after
    every frame, globalAlpha is 1, the font, alignment and baseline are
    the defaults of a fresh context and the stack of saved states is
    empty.  So every background is painted at full opacity, and the
    caption, which assigns no baseline, is painted on the alphabetic
    baseline.  The error message stays cleared, the rendering flag stays
    raised and the scene list and framesPerScene stay those of the start. *)
Theorem render_paint_state_stable
  (Math_sin Math_cos : Angle -> Q) (measureText : string -> string -> Q)
  (cfg : StyleConfig) (host : Host) (script : string) (p p0 : Page) (s0 : Session)
  (Hstart : startRender cfg host script p = (p0, Some s0)) :
  canvasContext p0 = freshContext /\
  forall ps,
    LoopState Math_sin Math_cos measureText cfg (p0, s0) ps ->
    let ctx := canvasContext (fst ps) in
    globalAlpha (paintState ctx) = 1 /\
    font (paintState ctx) = "10px sans-serif" /\
    textAlign (paintState ctx) = "start" /\
    textBaseline (paintState ctx) = "alphabetic" /\
    saved ctx = [] /\
    renderError (fst ps) = None /\ isRendering (fst ps) = true /\
    sessionScenes (snd ps) = scenes script /\
    framesPerScene (snd ps) = Timeline.framesPerScene (sceneDuration cfg).
Proof.
  destruct (startRender_fields cfg host script p p0 s0 Hstart)
    as (mime & earlier & later & _ & _ & _ & _ & _ & Hctx & _ & Herr & Hren).
  destruct (startRender_session cfg host script p p0 s0 Hstart)
    as (_ & Hsc & _ & Hfps & _).
  split; [exact Hctx|].
  assert (Hstep : forall q s,
             (let ctx := canvasContext q in
              globalAlpha (paintState ctx) = 1 /\
              font (paintState ctx) = "10px sans-serif" /\
              textAlign (paintState ctx) = "start" /\
              textBaseline (paintState ctx) = "alphabetic" /\
              saved ctx = [] /\
              renderError q = None /\ isRendering q = true /\
              sessionScenes s = scenes script /\
              framesPerScene s = Timeline.framesPerScene (sceneDuration cfg)) ->
             let ps := renderFrame Math_sin Math_cos measureText cfg (q, s) in
             let ctx := canvasContext (fst ps) in
             globalAlpha (paintState ctx) = 1 /\
             font (paintState ctx) = "10px sans-serif" /\
             textAlign (paintState ctx) = "start" /\
             textBaseline (paintState ctx) = "alphabetic" /\
             saved ctx = [] /\
             renderError (fst ps) = None /\ isRendering (fst ps) = true /\
             sessionScenes (snd ps) = scenes script /\
             framesPerScene (snd ps) = Timeline.framesPerScene (sceneDuration cfg)).
  { intros q s (A1 & A2 & A3 & A4 & A5 & A6 & A7 & A8 & A9). cbv zeta.
    destruct (renderFrame_page Math_sin Math_cos measureText cfg q s)
      as (P1 & P2 & P3 & P4 & P5 & _).
    destruct (paintFrame_keeps Math_sin Math_cos measureText cfg s (canvasContext q))
      as (K1 & K2 & K3 & K4 & K5).
    cbv zeta in *. rewrite P1, P2, P3, P4, P5, K1, K2, K3, K4, K5.
    now repeat split. }
  intros ps Hreach.
  induction Hreach as [|[q s] Hreach IH Hraf].
  - apply Hstep. cbv zeta. rewrite Hctx. now repeat split.
  - apply Hstep. exact IH.
Qed.

Lemma render_paint_state_stable_witness :
  exists p0 s0,
    startRender defaultStyle capableHost "A" mountedPage = (p0, Some s0) /\
    canvasContext p0 = freshContext /\
    let ps := renderFrame sinAtZero cosAtZero fixedPitch defaultStyle (p0, s0) in
    globalAlpha (paintState (canvasContext (fst ps))) = 1 /\
    saved (canvasContext (fst ps)) = [].
Proof.
  eexists. eexists. split; [reflexivity|].
  destruct (render_paint_state_stable sinAtZero cosAtZero fixedPitch defaultStyle
              capableHost "A" mountedPage _ _ eq_refl) as [H0 Hall].
  split; [exact H0|].
  destruct (Hall _ (loop_first _ _ _ _ _)) as (H1 & _ & _ & _ & H5 & _).
  now split.
Defined.

(** X21. A generate request that starts a render returns with frame 0
    painted on the cleared canvas and nothing else on it, the counter at
    1, the next frame scheduled under the handle the browser had next,
    an empty chunk buffer, the error message cleared and the rendering
    flag raised. *)
Theorem handleGenerate_success
  (Math_sin Math_cos : Angle -> Q) (measureText : string -> string -> Q)
  (cfg : StyleConfig) (host : Host) (script : string) (p p0 : Page) (s0 : Session)
  (Hstart : startRender cfg host script p = (p0, Some s0)) :
  exists p1 s1,
    handleGenerate Math_sin Math_cos measureText cfg host script p = (p1, Some s1) /\
    canvasContext p1 =
      exec (paintFrame Math_sin Math_cos measureText cfg s0) freshContext /\
    currentFrame s1 = 1%Z /\
    rafRef p1 = Some (nextHandle p) /\
    chunks s1 = [] /\
    renderError p1 = None /\ isRendering p1 = true.
Proof.
  destruct (startRender_fields cfg host script p p0 s0 Hstart)
    as (mime & earlier & later & _ & _ & _ & _ & _ & Hctx & Hchunks & Herr & Hren).
  destruct (startRender_session cfg host script p p0 s0 Hstart)
    as (_ & _ & H0 & _ & _ & Hpos & _).
  assert (Hnext : nextHandle p0 = nextHandle p).
  { clear - Hstart. unfold startRender in Hstart.
    destruct (isClient host); cbn [negb] in Hstart; [|discriminate].
    destruct (hasMediaRecorder host); cbn [negb] in Hstart; [|discriminate].
    destruct (canvasMounted host); cbn [negb] in Hstart; [|discriminate].
    destruct (List.length (scenes script) =? 0)%nat; [discriminate|].
    destruct (contextAvailable host); cbn [negb] in Hstart; [|discriminate].
    destruct (find (isTypeSupported host) MIME_PREFERENCE); [|discriminate].
    injection Hstart as <- _. cbn -[teardownRecording].
    apply teardownRecording_fields. }
  destruct (renderFrame_page Math_sin Math_cos measureText cfg p0 s0)
    as (P1 & P2 & P3 & _ & _ & P6).
  destruct (renderFrame_scheduled Math_sin Math_cos measureText cfg p0 s0 ltac:(lia))
    as (Hraf & _ & _ & Hcur & _).
  cbv zeta in *.
  unfold handleGenerate. rewrite Hstart.
  destruct (renderFrame Math_sin Math_cos measureText cfg (p0, s0)) as [p1 s1].
  cbn [fst snd] in *.
  exists p1, s1. split; [reflexivity|].
  rewrite P1, P2, P3, P6, Hraf, Hcur, Hctx, H0, Hnext.
  now repeat split.
Qed.

Lemma handleGenerate_success_witness :
  exists p0 s0,
    startRender defaultStyle capableHost "A" mountedPage = (p0, Some s0) /\
    exists p1 s1,
      handleGenerate sinAtZero cosAtZero fixedPitch defaultStyle
                     capableHost "A" mountedPage = (p1, Some s1) /\
      canvasContext p1 =
        exec (paintFrame sinAtZero cosAtZero fixedPitch defaultStyle s0) freshContext /\
      currentFrame s1 = 1%Z /\
      rafRef p1 = Some (nextHandle mountedPage) /\
      chunks s1 = [] /\
      renderError p1 = None /\ isRendering p1 = true.
Proof.
  eexists. eexists. split; [reflexivity|].
  exact (handleGenerate_success sinAtZero cosAtZero fixedPitch defaultStyle
           capableHost "A" mountedPage _ _ eq_refl).
Defined.

(** ** Chunks and the output URL *)

Lemma ondataavailable_chunks (data : BlobPart) (s : Session) :
  chunks (ondataavailable data s) = chunks s ++ filter nonEmptyPart [data] /\
  currentFrame (ondataavailable data s) = currentFrame s /\
  totalFrames (ondataavailable data s) = totalFrames s /\
  sessionScenes (ondataavailable data s) = sessionScenes s.
Proof.
  destruct data as [[|n]]; cbn; rewrite ?app_nil_r; now repeat split.
Qed.

(** X22. The chunk buffer keeps the recorder's chunks in the order they
    arrive and drops those of size 0: after any sequence of deliveries it
    is the buffer before followed by the non-empty chunks delivered.  The
    deliveries do not touch the frame counter or the scene list. *)
Theorem chunks_collected_in_order (datas : list BlobPart) (s : Session) :
  chunks (collect datas s) = chunks s ++ filter nonEmptyPart datas /\
  currentFrame (collect datas s) = currentFrame s /\
  totalFrames (collect datas s) = totalFrames s /\
  sessionScenes (collect datas s) = sessionScenes s.
Proof.
  revert s. induction datas as [|d ds IH]; intros s.
  - cbn. rewrite app_nil_r. now repeat split.
  - unfold collect in *. cbn [fold_left].
    destruct (IH (ondataavailable d s)) as (H1 & H2 & H3 & H4).
    destruct (ondataavailable_chunks d s) as (D1 & D2 & D3 & D4).
    rewrite H1, H2, H3, H4, D1, D2, D3, D4.
    rewrite (filter_head nonEmptyPart d ds), app_assoc. now repeat split.
Qed.

Lemma revoke_all (old : positive) (entries : list (positive * Blob)) :
  Forall (fun e => fst e = old) entries ->
  filter (fun entry => negb (Pos.eqb (fst entry) old)) entries = [].
Proof.
  induction 1 as [|e es He _ IH]; [reflexivity|].
  cbn. rewrite He, Pos.eqb_refl. exact IH.
Qed.

(** X23. When a recording stops while at most the current video URL
    resolves, the handler builds one blob from the chunk buffer, in
    order and typed with the recorder's MIME type, and makes its fresh
    URL the video URL; the URL of the video before no longer resolves;
    the new URL is the only one that does, so the same holds for the
    next render; and the rendering flag is lowered. *)
Theorem onstop_single_output (mime : string) (s : Session) (p : Page) (o : Output)
  (Hone : singleOutput o) :
  let p' := fst (onstop mime s (p, o)) in
  let o' := snd (onstop mime s (p, o)) in
  videoUrl o' = Some (nextUrl o) /\
  objectUrls o' = [(nextUrl o, mkBlob (chunks s) mime)] /\
  resolveUrl (nextUrl o) o' = Some (mkBlob (chunks s) mime) /\
  (forall old, videoUrl o = Some old -> resolveUrl old o' = None) /\
  singleOutput o' /\
  isRendering p' = false.
Proof.
  destruct o as [current entries next]. destruct Hone as [Hentries Hcur].
  cbn [videoUrl objectUrls nextUrl] in *.
  assert (Hobj : objectUrls (snd (onstop mime s (p, mkOutput current entries next)))
                 = [(next, mkBlob (chunks s) mime)]).
  { unfold onstop, createObjectURL, revokeObjectURL.
    cbn [videoUrl objectUrls nextUrl snd].
    destruct current as [old|].
    - cbn [videoUrl objectUrls nextUrl snd].
      assert (Hall : Forall (fun e => fst e = old) entries).
      { apply Forall_forall. intros [u b] Hin.
        destruct (Hentries u b Hin) as [E _]. cbn. congruence. }
      assert (Hneq : Pos.eqb next old = false).
      { apply Pos.eqb_neq. specialize (Hcur old eq_refl).
      intros E. rewrite E in Hcur. exact (Pos.lt_irrefl _ Hcur). }
      rewrite filter_app, (revoke_all old entries Hall).
      cbn. rewrite Hneq. cbn. now rewrite Hneq.
    - destruct entries as [|[u b] rest]; [reflexivity|].
      destruct (Hentries u b (or_introl eq_refl)) as [E _]. discriminate E. }
  assert (Hurl : videoUrl (snd (onstop mime s (p, mkOutput current entries next)))
                 = Some next).
  { unfold onstop, createObjectURL. cbn [videoUrl objectUrls nextUrl snd].
    destruct current; reflexivity. }
  assert (Hnext : nextUrl (snd (onstop mime s (p, mkOutput current entries next)))
                  = Pos.succ next).
  { unfold onstop, createObjectURL. cbn [videoUrl objectUrls nextUrl snd].
    destruct current; reflexivity. }
  cbv zeta. split; [exact Hurl|]. split; [exact Hobj|].
  split; [|split; [|split]].
  - unfold resolveUrl. rewrite Hobj. cbn. now rewrite Pos.eqb_refl.
  - intros old ->. unfold resolveUrl. rewrite Hobj. cbn.
    assert (Hneq : Pos.eqb next old = false).
    { apply Pos.eqb_neq. specialize (Hcur old eq_refl).
      intros E. rewrite E in Hcur. exact (Pos.lt_irrefl _ Hcur). }
    now rewrite Hneq.
  - split.
    + intros u b Hin. rewrite Hobj in Hin. destruct Hin as [E | []].
      injection E as <- <-. rewrite Hurl, Hnext. split; [reflexivity | lia].
    + intros u E. rewrite Hurl in E. injection E as <-. rewrite Hnext. lia.
  - unfold onstop, createObjectURL. cbn [videoUrl objectUrls nextUrl snd fst].
    destruct current; reflexivity.
Qed.

Lemma onstop_single_output_witness :
  let o := mkOutput (Some 3%positive) [(3%positive, mkBlob [blobPart 5] "video/webm")]
                    4%positive in
  let s := mkSession [] [blobPart 7; blobPart 9] 120 120 121 in
  let o' := snd (onstop "video/webm" s (mountedPage, o)) in
  videoUrl o' = Some 4%positive /\
  objectUrls o' = [(4%positive, mkBlob [blobPart 7; blobPart 9] "video/webm")] /\
  resolveUrl 3%positive o' = None.
Proof.
  intros o s o'.
  assert (Hone : singleOutput o).
  { split.
    - intros u b [E | []]. injection E as <- <-. split; reflexivity.
    - intros u E. injection E as <-. reflexivity. }
  destruct (onstop_single_output "video/webm" s mountedPage o Hone)
    as (H1 & H2 & _ & H4 & _).
  split; [exact H1|]. split; [exact H2|]. now apply H4.
Defined.

(** ** Resetting the preview *)

(** X24. With a canvas and a context, [resetCanvas] leaves on the canvas
    exactly one painting call, whatever was on it before: the full
    1280 x 720 rectangle, at opacity 1, filled with the linear gradient
    from the top left to the bottom right corner that runs from
    backgroundStart to backgroundEnd.  It touches nothing else on the
    page, doing it twice is doing it once, and without a canvas or a
    context it does nothing. *)
Theorem resetCanvas_effect (cfg : StyleConfig) (host : Host) (p : Page) :
  (canvasMounted host = true -> contextAvailable host = true ->
   let p' := resetCanvas cfg host p in
   (exists st,
      painted (canvasContext p') = [FillRect 0 0 1280 720 st] /\
      globalAlpha st = 1 /\
      fillStyle st = LinearGradient 0 0 1280 720
                       [(0, backgroundStart cfg); (1, backgroundEnd cfg)]) /\
   saved (canvasContext p') = [] /\
   (forall ctx, resetCanvas cfg host (setContext ctx p) = p') /\
   resetCanvas cfg host p' = p' /\
   rafRef p' = rafRef p /\ recorderRef p' = recorderRef p /\
   renderError p' = renderError p /\ isRendering p' = isRendering p /\
   calls p' = calls p) /\
  (canvasMounted host = false \/ contextAvailable host = false ->
   resetCanvas cfg host p = p).
Proof.
  unfold resetCanvas. split.
  - intros -> ->. cbn [negb]. cbv zeta.
    split; [eexists; split; [reflexivity|]; split; reflexivity|].
    repeat split; reflexivity.
  - intros [-> | ->]; cbn [negb]; [reflexivity|].
    now destruct (canvasMounted host).
Qed.

Lemma resetCanvas_effect_witness :
  exists st,
    painted (canvasContext (resetCanvas defaultStyle capableHost mountedPage)) =
      [FillRect 0 0 1280 720 st] /\
    globalAlpha st = 1 /\
    fillStyle st = LinearGradient 0 0 1280 720
                     [(0, backgroundStart defaultStyle); (1, backgroundEnd defaultStyle)].
Proof.
  exact (proj1 (proj1 (resetCanvas_effect defaultStyle capableHost mountedPage)
                  eq_refl eq_refl)).
Defined.

(** ** The shapes of the background *)

Lemma withFill_withFill (f g : Style) (st : PaintState) :
  withFill f (withFill g st) = withFill f st.
Proof. reflexivity. Qed.

Section BackgroundShapes.

Variables Math_sin Math_cos : Angle -> Q.
Variable cfg : StyleConfig.
Variable progress : Q.

Let blob (st : PaintState) (index : Z) : Paint :=
  FillPath [mkArc (blobX progress index) (blobY progress index)
                  (blobRadius Math_sin progress index) (mkAngle 0 0) (mkAngle 1 0)]
           (withFill (gradientBlob Math_sin cfg progress index) st).

Lemma drawBlob_run (index : Z) (ctx : Context) :
  drawBlob Math_sin cfg progress index ctx =
  (tt, mkContext (withFill (gradientBlob Math_sin cfg progress index) (paintState ctx))
                 (saved ctx)
                 [mkArc (blobX progress index) (blobY progress index)
                        (blobRadius Math_sin progress index) (mkAngle 0 0) (mkAngle 1 0)]
                 (painted ctx ++ [blob (paintState ctx) index])).
Proof. reflexivity. Qed.

Lemma forEach_blobs (indexes : list Z) :
  forall (ctx : Context) (st : PaintState),
    (forall f, withFill f (paintState ctx) = withFill f st) ->
    painted (snd (forEach indexes (drawBlob Math_sin cfg progress) ctx)) =
    painted ctx ++ map (blob st) indexes.
Proof.
  induction indexes as [|i rest IH]; intros ctx st Hst.
  - cbn. now rewrite app_nil_r.
  - cbn [forEach map]. rewrite bind_run, drawBlob_run. cbn [fst snd].
    rewrite (IH _ st).
    + cbn [painted]. unfold blob at 1. rewrite Hst. fold (blob st i).
      now rewrite <- app_assoc.
    + intros f. cbn [paintState]. rewrite withFill_withFill. apply Hst.
Qed.

Lemma drawBackground_painted (ctx : Context) :
  exists gradient,
    painted (exec (drawBackground Math_sin Math_cos cfg progress) ctx) =
    painted ctx ++
    FillRect 0 0 (inject_Z CANVAS_WIDTH) (inject_Z CANVAS_HEIGHT)
             (withFill gradient (paintState ctx))
    :: map (blob (paintState ctx)) [0; 1; 2; 3; 4]%Z.
Proof.
  eexists. unfold drawBackground, exec. cbv zeta.
  rewrite bind_run, bind_run.
  rewrite (forEach_blobs _ _ (paintState ctx)).
  - unfold Ctx.set_fillStyle, Ctx.fillRect, setState, emit.
    cbn [fst snd paintState saved currentPath painted].
    rewrite <- app_assoc. reflexivity.
  - intros f. reflexivity.
Qed.

End BackgroundShapes.

(** X25. [drawBackground] paints exactly six shapes, in this order: the
    full 1280 x 720 rectangle, then blobs 0 to 4.  Each blob is filled as
    one full circle on its own (a path left open before the call is
    discarded), under the radial gradient of its index, which fades from
    the base colour with alpha suffix 30 to the same colour with suffix
    00; the base colour is the accent colour for blobs 0, 2 and 4 and the
    primary colour for blobs 1 and 3.  All six are painted at the opacity
    in force before the call. *)
Theorem drawBackground_shapes
  (Math_sin Math_cos : Angle -> Q) (cfg : StyleConfig) (progress : Q) (ctx : Context) :
  let st := paintState ctx in
  let blob := fun index =>
    FillPath [mkArc (blobX progress index) (blobY progress index)
                    (blobRadius Math_sin progress index) (mkAngle 0 0) (mkAngle 1 0)]
             (withFill (gradientBlob Math_sin cfg progress index) st) in
  (exists gradient,
     painted (exec (drawBackground Math_sin Math_cos cfg progress) ctx) =
       painted ctx ++
       FillRect 0 0 (inject_Z CANVAS_WIDTH) (inject_Z CANVAS_HEIGHT)
                (withFill gradient st) :: map blob [0; 1; 2; 3; 4]%Z) /\
  (forall index x0 y0 r0 x1 y1 r1 stops,
     gradientBlob Math_sin cfg progress index =
       RadialGradient x0 y0 r0 x1 y1 r1 stops ->
     let base := if (Z.rem index 2 =? 0)%Z then accentColor cfg
                 else primaryColor cfg in
     stops = [(0, (base ++ "30")%string); (1, (base ++ "00")%string)] /\
     r0 = 0 /\ r1 = blobRadius Math_sin progress index).
Proof.
  cbv zeta. split.
  - apply drawBackground_painted.
  - intros index x0 y0 r0 x1 y1 r1 stops E.
    unfold gradientBlob in E. cbv zeta in E. cbn [addColorStop app] in E.
    injection E as <- <- <- <- <- <- <-. now repeat split.
Qed.
